(** * AI Employee Vault: the work-coordination layer

  A shallow embedding of the claim-by-move protocol
  ([Agents/claim_manager.py]), the human-in-the-loop approval gate
  ([Agents/hitl_approval.py]), the process supervisor
  ([Agents/orchestrator.py]) and the dry-run switch of
  [Agents/config.py], together with the properties the specification
  states about them.

  The Python code is stateful and raises exceptions, so every operation
  is a computation in a state-and-exception monad [Py] over a [World]:
  the directory tree, the audit log, the clock and the child processes. *)

From Stdlib Require Import ZArith QArith String Ascii List.
From stdpp Require Import base option list gmap strings fin_maps sorting.

Open Scope string_scope.
Open Scope list_scope.

(** * Paths and the directory tree *)

(** A [pathlib.Path] is its list of components, outermost first; the
    empty list is the root.  Components are never empty. *)
Abbreviation path := (list string).

(** A node is a regular file (text, [st_mtime], whether it may be opened
    for reading) or a directory.  There are no symbolic links and the tree
    lives on one volume with POSIX [rename] semantics. *)
Inductive node : Type :=
  | File (content : string) (mtime : Q) (readable : bool)
  | Dir.

(** The tree is a finite map from paths to nodes. *)
Abbreviation tree := (gmap path node).

(** [Path.name]: the last component, [""] for the root. *)
Definition name (p : path) : string := List.last p "".

(** [Path.parent]. *)
Definition parent (p : path) : path := removelast p.

(** [p / n] for a single component [n]; joining the empty string gives
    [p] back, as pathlib does. *)
Definition joinpath (p : path) (n : string) : path :=
  if decide (n = "") then p else p ++ [n].

Infix "//" := joinpath (at level 40, left associativity).

Definition path_exists (t : tree) (p : path) : bool :=
  match t !! p with Some _ => true | None => false end.

Definition is_dir (t : tree) (p : path) : bool :=
  match t !! p with Some Dir => true | _ => false end.

Definition is_file (t : tree) (p : path) : bool :=
  match t !! p with Some (File _ _ _) => true | _ => false end.

(** [k] is an entry directly inside directory [p]. *)
Definition is_child (p k : path) : bool :=
  bool_decide (k ≠ [] ∧ parent k = p).

(** The entries of directory [p], in the order the operating system
    yields them (here: the order of the underlying map). *)
Definition children (t : tree) (p : path) : list path :=
  filter (λ k, is_child p k = true) (map fst (map_to_list t)).

(** Some proper ancestor of [p] is a regular file. *)
Fixpoint file_on_the_way (t : tree) (pre : path) (rest : path) : bool :=
  match rest with
  | [] => false
  | c :: rest' => is_file t pre || file_on_the_way t (pre ++ [c]) rest'
  end.

(** All non-empty prefixes of [p], shortest first. *)
Fixpoint prefixes_from (pre rest : path) : list path :=
  match rest with
  | [] => []
  | c :: rest' => (pre ++ [c]) :: prefixes_from (pre ++ [c]) rest'
  end.

(** * Exceptions, the audit log and the world *)

(** The exceptions the modelled library calls raise.  All of them are
    subclasses of [OSError] ([shutil.Error] included), hence of
    [Exception]. *)
Inductive exn : Type :=
  | FileNotFoundError
  | FileExistsError
  | NotADirectoryError
  | IsADirectoryError
  | PermissionError
  | InvalidArgument        (* OSError with errno EINVAL *)
  | ShutilError.           (* shutil.Error *)

Definition is_OSError (e : exn) : bool := true.

(** The [description] argument of [log_action] is an f-string; it is kept
    as the template together with the values substituted into it. *)
Inductive Description : Type :=
  | ClaimedBy (agent : string)                   (* "Claimed by {agent}" *)
  | ReleasedTo (dest_name : string)              (* "Released to {destination.name}" *)
  | StaleClaim (age_hours : Q) (src_name : string)
      (* "Stale claim ({age_hours:.1f}h), returned to {source_dir.name}" *)
  | NoHandler (action : string)                  (* "No handler for action type: {action_type}" *)
  | Executed (action : string) (dry : bool)      (* "Executed {action_type} (DRY_RUN={DRY_RUN})" *)
  | ErrorText (e : exn)                          (* str(e) *)
  | StartedPid (pid : nat).                      (* "Started (PID {pid})" *)

(** One entry of the daily log written by [action_logger.log_action]. *)
Record LogEntry : Type := mkEntry {
  timestamp : string;
  action_type : string;
  actor : string;
  target : string;
  description : Description;
  approval_status : string;
  status : string;
}.

(** The command line handed to [subprocess.Popen]:
    [[sys.executable, str(script_path)] + args]. *)
Record Cmd : Type := mkCmd { script_path : path; extra_args : list string }.

#[global] Instance Cmd_eq_dec : EqDecision Cmd.
Proof. solve_decision. Defined.

(** A [subprocess.Popen] object. *)
Record Popen : Type := mkPopen { pid : nat; popen_args : Cmd }.

(** Everything outside the Python process that the code reads or changes. *)
Record World : Type := mkWorld {
  fs : tree;                        (* the shared directory tree *)
  audit : list LogEntry;            (* the entries of today's log file *)
  clock : Q;                        (* datetime.now().timestamp() *)
  utc_compact : string;             (* strftime("%Y%m%dT%H%M%S") of the clock *)
  utc_iso : string;                 (* now_iso() *)
  environ : gmap string string;     (* os.environ after the .env file is loaded *)
  can_spawn : Cmd → bool;           (* Popen succeeds for this command *)
  still_running : Popen → bool;     (* the child has not exited by itself *)
  terminated : gset nat;            (* pids the supervisor has terminated *)
  next_pid : nat;
  popen_calls : list Cmd;           (* every command handed to Popen, oldest first *)
}.

Definition with_fs (t : tree) (w : World) : World :=
  mkWorld t (audit w) (clock w) (utc_compact w) (utc_iso w) (environ w)
          (can_spawn w) (still_running w) (terminated w) (next_pid w) (popen_calls w).

Definition with_audit (a : list LogEntry) (w : World) : World :=
  mkWorld (fs w) a (clock w) (utc_compact w) (utc_iso w) (environ w)
          (can_spawn w) (still_running w) (terminated w) (next_pid w) (popen_calls w).

(** * The state-and-exception monad *)

Inductive outcome (A : Type) : Type :=
  | Return (a : A)
  | Raise (e : exn).
Arguments Return {A} a.
Arguments Raise {A} e.

Definition Py (A : Type) : Type := World → outcome A * World.

Definition ret {A} (a : A) : Py A := λ w, (Return a, w).
Definition raise {A} (e : exn) : Py A := λ w, (Raise e, w).
Definition bind {A B} (m : Py A) (k : A → Py B) : Py B :=
  λ w, match m w with
       | (Return a, w') => k a w'
       | (Raise e, w') => (Raise e, w')
       end.

(** [try: body except <classes selected by handles>: handler]. *)
Definition try_except {A} (body : Py A) (handles : exn → bool)
    (handler : exn → Py A) : Py A :=
  λ w, match body w with
       | (Return a, w') => (Return a, w')
       | (Raise e, w') => if handles e then handler e w' else (Raise e, w')
       end.

Definition get_fs : Py tree := λ w, (Return (fs w), w).
Definition put_fs (t : tree) : Py unit := λ w, (Return tt, with_fs t w).

Declare Scope py_scope.
Delimit Scope py_scope with py.
Notation "x '<-' m ';;' k" := (bind m (λ x, k))
  (at level 100, m at next level, right associativity) : py_scope.
Notation "m ';;;' k" := (bind m (λ _, k))
  (at level 100, right associativity) : py_scope.
Open Scope py_scope.

(** A [for] loop whose body may raise: the first exception ends the loop. *)
Fixpoint for_each {A} (l : list A) (body : A → Py unit) : Py unit :=
  match l with
  | [] => ret tt
  | x :: l' => body x ;;; for_each l' body
  end.

(** A [for] loop threading an accumulator (a local variable of the
    enclosing function). *)
Fixpoint for_fold {A S} (l : list A) (acc : S) (body : S → A → Py S) : Py S :=
  match l with
  | [] => ret acc
  | x :: l' => acc' <- body acc x ;; for_fold l' acc' body
  end.

(** * [pathlib] and [shutil] *)

(** [Path.iterdir]. *)
Definition iterdir (p : path) : Py (list path) :=
  t <- get_fs ;;
  match t !! p with
  | Some Dir => ret (children t p)
  | Some (File _ _ _) => raise NotADirectoryError
  | None => raise FileNotFoundError
  end.

(** [Path.read_text(encoding="utf-8", errors="replace")]. *)
Definition read_text (p : path) : Py string :=
  t <- get_fs ;;
  match t !! p with
  | Some (File c _ true) => ret c
  | Some (File _ _ false) => raise PermissionError
  | Some Dir => raise IsADirectoryError
  | None => raise FileNotFoundError
  end.

(** [Path.stat().st_mtime].  Directories carry no time stamp in this
    model; the code only asks for the time of regular files. *)
Definition st_mtime (p : path) : Py Q :=
  t <- get_fs ;;
  match t !! p with
  | Some (File _ m _) => ret m
  | Some Dir => ret 0%Q
  | None => raise FileNotFoundError
  end.

(** [os.mkdir(d)] unless [d] is there already. *)
Definition mkdir_step (acc : tree) (d : path) : tree :=
  match acc !! d with Some _ => acc | None => <[d := Dir]> acc end.

(** [Path.mkdir(parents=True, exist_ok=True)]. *)
Definition mkdir_p (p : path) : Py unit :=
  t <- get_fs ;;
  match t !! p with
  | Some Dir => ret tt
  | Some (File _ _ _) => raise FileExistsError
  | None =>
      if file_on_the_way t [] p then raise NotADirectoryError
      else put_fs (foldl mkdir_step t (prefixes_from [] p))
  end.

(** The keys at or below [src]. *)
Definition under (src k : path) : bool := bool_decide (src `prefix_of` k).

(** Moving the subtree rooted at [src] so that it is rooted at [dst]. *)
Definition rekey (src dst : path) (kv : path * node) : path * node :=
  if under src kv.1 then (dst ++ drop (length src) kv.1, kv.2) else kv.

Definition rename_tree (src dst : path) (t : tree) : tree :=
  list_to_map (map (rekey src dst) (map_to_list t)).

(** [os.rename(src, dst)] (POSIX).  [shutil.move] only calls it with a
    destination that is absent or a regular file, or with [dst = src]. *)
Definition os_rename (src dst : path) : Py unit :=
  t <- get_fs ;;
  match t !! src with
  | None => raise FileNotFoundError
  | Some nd =>
      if decide (src = dst) then ret tt else
      match t !! parent dst with
      | None => raise FileNotFoundError
      | Some (File _ _ _) => raise NotADirectoryError
      | Some Dir =>
          match nd, t !! dst with
          | File _ _ _, Some Dir => raise IsADirectoryError
          | File _ _ _, _ => put_fs (<[dst := nd]> (delete src t))
          | Dir, Some (File _ _ _) => raise NotADirectoryError
          | Dir, Some Dir =>
              if bool_decide (children t dst = []) then
                put_fs (rename_tree src dst (delete dst t))
              else raise FileExistsError    (* ENOTEMPTY *)
          | Dir, None =>
              if under src dst then raise InvalidArgument
              else put_fs (rename_tree src dst t)
          end
      end
  end.

(** [shutil.copytree(src, dst, symlinks=True)]: creates [dst] and its
    missing ancestors, copies every directory and every readable file,
    and raises [shutil.Error] at the end when some file could not be
    read. *)
Definition copytree (src dst : path) : Py unit :=
  t <- get_fs ;;
  match t !! dst with
  | Some _ => raise FileExistsError
  | None =>
      if file_on_the_way t [] dst then raise NotADirectoryError else
      mkdir_p dst ;;;
      t1 <- get_fs ;;
      let sub := filter (λ kv, under src kv.1 = true) (map_to_list t) in
      let copyable kv := match kv.2 with File _ _ false => false | _ => true end in
      put_fs (list_to_map (map (rekey src dst) (filter (λ kv, copyable kv = true) sub)) ∪ t1) ;;;
      if forallb copyable sub then ret tt else raise ShutilError
  end.

(** [shutil.rmtree(src)]. *)
Definition rmtree (src : path) : Py unit :=
  t <- get_fs ;;
  put_fs (filter (λ kv, under src kv.1 = false) t).

(** [shutil.copy2(src, dst)] followed by [os.unlink(src)], the fallback
    of [shutil.move] for a source that is not a directory. *)
Definition copy2_unlink (src dst : path) : Py unit :=
  t <- get_fs ;;
  match t !! src with
  | None => raise FileNotFoundError
  | Some Dir => raise IsADirectoryError
  | Some (File _ _ false) => raise PermissionError
  | Some (File c m true) =>
      if decide (src = dst) then raise ShutilError (* SameFileError *) else
      match t !! parent dst, t !! dst with
      | None, _ => raise FileNotFoundError
      | Some (File _ _ _), _ => raise NotADirectoryError
      | Some Dir, Some Dir => raise IsADirectoryError
      | Some Dir, _ => put_fs (<[dst := File c m true]> (delete src t))
      end
  end.

(** The second half of [shutil.move]: [os.rename] and, when that fails,
    copying followed by removal of the source. *)
Definition rename_or_copy (src real_dst : path) : Py path :=
  try_except
    (os_rename src real_dst ;;; ret real_dst)
    is_OSError
    (λ _,
       t' <- get_fs ;;
       if is_dir t' src then
         if under src real_dst then raise ShutilError
         else copytree src real_dst ;;; rmtree src ;;; ret real_dst
       else copy2_unlink src real_dst ;;; ret real_dst).

(** [shutil.move(src, dst)]; returns the path the source ended at. *)
Definition shutil_move (src dst : path) : Py path :=
  t <- get_fs ;;
  if is_dir t dst then
    if decide (src = dst) then os_rename src dst ;;; ret dst
    else
      let real_dst := dst // name src in
      if path_exists t real_dst then raise ShutilError
      else rename_or_copy src real_dst
  else rename_or_copy src dst.

(** * [config.py]: the vault layout *)

Definition VAULT_ROOT : path := ["ai-employee"].
Definition INBOX_DIR : path := VAULT_ROOT // "Inbox".
Definition NEEDS_ACTION_DIR : path := VAULT_ROOT // "Needs_Action".
Definition DONE_DIR : path := VAULT_ROOT // "Done".
Definition AGENTS_DIR : path := VAULT_ROOT // "Agents".
Definition PENDING_APPROVAL_DIR : path := VAULT_ROOT // "Pending_Approval".
Definition APPROVED_DIR : path := VAULT_ROOT // "Approved".
Definition IN_PROGRESS_DIR : path := VAULT_ROOT // "In_Progress".

(** * [action_logger.py] *)

(** [log_action]: appends one entry to today's log and returns it.  The
    log file is kept as the list of its entries. *)
Definition log_action (action_type actor target : string) (description : Description)
    (approval_status status : string) : Py LogEntry :=
  λ w, let entry := mkEntry (utc_iso w) action_type actor target description
                            approval_status status in
       (Return entry, with_audit (audit w ++ [entry]) w).

(** The call with the two optional arguments left at their defaults. *)
Definition log_action4 (action_type actor target : string) (description : Description)
    : Py LogEntry :=
  log_action action_type actor target description "N/A" "success".

(** * [claim_manager.py] *)

Module ClaimManager.

Record t : Type := mk { agent_name : string; claim_dir : path }.

(** [__init__]: fixes the scratch queue and creates it. *)
Definition init (agent_name : string) : Py t :=
  let claim_dir := IN_PROGRESS_DIR // agent_name in
  mkdir_p claim_dir ;;;
  ret (mk agent_name claim_dir).

(** The loop of [is_claimed_by_anyone] over the listing it was given. *)
Definition scan_claims (tr : tree) (filename : string) (agent_dirs : list path) : bool :=
  existsb (λ agent_dir, is_dir tr agent_dir && path_exists tr (agent_dir // filename))
          agent_dirs.

Definition is_claimed_by_anyone (self : t) (filename : string) : Py bool :=
  agent_dirs <- iterdir IN_PROGRESS_DIR ;;
  tr <- get_fs ;;
  ret (scan_claims tr filename agent_dirs).

Definition claim (self : t) (source_path : path) : Py (option path) :=
  tr <- get_fs ;;
  if negb (path_exists tr source_path) then ret None else
  let filename := name source_path in
  claimed <- is_claimed_by_anyone self filename ;;
  if claimed then ret None else
  let dest := claim_dir self // filename in
  try_except
    (shutil_move source_path dest ;;;
     log_action4 "task_claimed" (agent_name self) filename
                 (ClaimedBy (agent_name self)) ;;;
     ret (Some dest))
    is_OSError
    (λ _, ret None).

Definition release (self : t) (claimed_path destination : path) : Py (option path) :=
  tr <- get_fs ;;
  if negb (path_exists tr claimed_path) then ret None else
  mkdir_p destination ;;;
  let dest := destination // name claimed_path in
  try_except
    (shutil_move claimed_path dest ;;;
     log_action4 "task_released" (agent_name self) (name claimed_path)
                 (ReleasedTo (name destination)) ;;;
     ret (Some dest))
    is_OSError
    (λ _, ret None).

Definition release_to_done (self : t) (claimed_path : path) : Py (option path) :=
  release self claimed_path DONE_DIR.

(** [str.startswith(".")] on a file name. *)
Definition hidden (n : string) : bool :=
  match n with
  | String c _ => bool_decide (c = "."%char)
  | EmptyString => false
  end.

Definition list_claimed (self : t) : Py (list path) :=
  tr <- get_fs ;;
  if negb (path_exists tr (claim_dir self)) then ret [] else
  entries <- iterdir (claim_dir self) ;;
  ret (filter (λ f, is_file tr f && negb (hidden (name f)) = true) entries).

(** [age_hours = (now - f.stat().st_mtime) / 3600]. *)
Definition age_hours (now mtime : Q) : Q := ((now - mtime) / 3600)%Q.

(** [age_hours > max_age_hours]. *)
Definition older_than (age : Q) (max_age_hours : Z) : bool :=
  negb (Qle_bool age (inject_Z max_age_hours)).

(** [datetime.now().timestamp()]. *)
Definition timestamp_now : Py Q := λ w, (Return (clock w), w).

(** The body of the loop of [abandon_stale] for one claimed file. *)
Definition abandon_one (self : t) (source_dir : path) (max_age_hours : Z) (now : Q)
    (count : Z) (f : path) : Py Z :=
  mtime <- st_mtime f ;;
  let age := age_hours now mtime in
  if older_than age max_age_hours then
    try_except
      (shutil_move f (source_dir // name f) ;;;
       log_action4 "task_abandoned" (agent_name self) (name f)
                   (StaleClaim age (name source_dir)) ;;;
       ret (count + 1)%Z)
      is_OSError
      (λ _, ret count)
  else ret count.

Definition abandon_stale (self : t) (source_dir : path) (max_age_hours : Z) : Py Z :=
  now <- timestamp_now ;;
  claimed <- list_claimed self ;;
  for_fold claimed 0%Z (abandon_one self source_dir max_age_hours now).

(** [max_age_hours] defaults to 4. *)
Definition abandon_stale_default (self : t) (source_dir : path) : Py Z :=
  abandon_stale self source_dir 4.

End ClaimManager.

(** * Python strings

  A [str] is a [string] whose characters are its code points; the model
  covers code points up to U+00FF. *)

Module PyStr.

Definition code (c : ascii) : N := N_of_ascii c.

(** The line boundaries of [str.splitlines] (besides the pair CR LF). *)
Definition is_linebreak (c : ascii) : bool :=
  bool_decide (code c ∈ [10; 11; 12; 13; 28; 29; 30; 133]%N).

(** [str.isspace] on one character. *)
Definition is_space (c : ascii) : bool :=
  bool_decide (code c ∈ [9; 10; 11; 12; 13; 28; 29; 30; 31; 32; 133; 160]%N).

Definition is_empty (s : string) : bool :=
  match s with EmptyString => true | String _ _ => false end.

Fixpoint snoc (s : string) (c : ascii) : string :=
  match s with
  | EmptyString => String c EmptyString
  | String d s' => String d (snoc s' c)
  end.

(** [splitlines], reading [s] with the line collected so far in [cur];
    [after_cr] records that the previous character was a carriage
    return, so that a line feed right after it ends no further line. *)
Fixpoint splitlines_from (after_cr : bool) (cur : string) (s : string) : list string :=
  match s with
  | EmptyString => if is_empty cur then [] else [cur]
  | String c s' =>
      if after_cr && bool_decide (code c = 10%N) then splitlines_from false cur s'
      else if is_linebreak c then
        cur :: splitlines_from (bool_decide (code c = 13%N)) EmptyString s'
      else splitlines_from false (snoc cur c) s'
  end.

Definition splitlines (s : string) : list string :=
  splitlines_from false EmptyString s.

Fixpoint lstrip (s : string) : string :=
  match s with
  | EmptyString => EmptyString
  | String c s' => if is_space c then lstrip s' else s
  end.

Fixpoint rstrip (s : string) : string :=
  match s with
  | EmptyString => EmptyString
  | String c s' =>
      let r := rstrip s' in
      if is_empty r && is_space c then EmptyString else String c r
  end.

Definition strip (s : string) : string := rstrip (lstrip s).

Definition startswith (s pre : string) : bool := String.prefix pre s.

(** [s.partition(sep)] for a one-character separator, when it occurs. *)
Fixpoint partition (sep : ascii) (s : string) : option (string * string) :=
  match s with
  | EmptyString => None
  | String c s' =>
      if bool_decide (c = sep) then Some (EmptyString, s')
      else match partition sep s' with
           | Some (a, b) => Some (String c a, b)
           | None => None
           end
  end.

(** [s.split(sep, 1)]. *)
Definition split_once (sep : ascii) (s : string) : list string :=
  match partition sep s with
  | Some (a, b) => [a; b]
  | None => [s]
  end.

(** [str.lower] on one character. *)
Definition lower_char (c : ascii) : ascii :=
  let n := code c in
  if bool_decide (65 ≤ n ≤ 90)%N || (bool_decide (192 ≤ n ≤ 222)%N && negb (bool_decide (n = 215%N)))
  then ascii_of_N (n + 32) else c.

Fixpoint lower (s : string) : string :=
  match s with
  | EmptyString => EmptyString
  | String c s' => String (lower_char c) (lower s')
  end.



End PyStr.



(** * [config.py]: operational settings *)

(** [os.getenv(key, default)]. *)
Definition getenv (env : gmap string string) (key default : string) : string :=
  match env !! key with Some v => v | None => default end.

(** [DRY_RUN = os.getenv("DRY_RUN", "true").lower() in ("true", "1", "yes")]. *)
Definition DRY_RUN (env : gmap string string) : bool :=
  bool_decide (PyStr.lower (getenv env "DRY_RUN" "true") ∈ ["true"; "1"; "yes"]).

(** The module constant as the running code sees it. *)
Definition dry_run : Py bool := λ w, (Return (DRY_RUN (environ w)), w).

(** * [hitl_approval.py] *)

Module Hitl.

(** Every handler prints a line and reports success; with the dry-run
    switch on it prints what it would do instead. *)
Definition _handle_draft_email_reply (filepath : path) : Py bool :=
  dry <- dry_run ;;
  if dry then ret true else ret true.

Definition _handle_draft_social_post (filepath : path) : Py bool :=
  dry <- dry_run ;;
  if dry then ret true else ret true.

Definition _handle_deploy_checklist (filepath : path) : Py bool :=
  dry <- dry_run ;;
  if dry then ret true else ret true.

Definition _handle_request_approval (filepath : path) : Py bool :=
  ret true.

Definition ACTION_HANDLERS : gmap string (path → Py bool) :=
  list_to_map [
    ("draft_email_reply", _handle_draft_email_reply);
    ("draft_social_post", _handle_draft_social_post);
    ("deploy_checklist", _handle_deploy_checklist);
    ("request_approval", _handle_request_approval) ].

(** The loop of [_extract_action_type] over the lines of the content. *)
Fixpoint first_action (lines : list string) : string :=
  match lines with
  | [] => "unknown"
  | line :: rest =>
      if PyStr.startswith (PyStr.strip line) "action:" then
        PyStr.strip (nth 1 (PyStr.split_once ":"%char line) "")
      else first_action rest
  end.

Definition _extract_action_type (content : string) : string :=
  first_action (PyStr.splitlines content).


(** Lexicographic order on paths, component by component. *)
Fixpoint path_leb (p q : path) : bool :=
  match p, q with
  | [], _ => true
  | _ :: _, [] => false
  | a :: p', b :: q' =>
      match String.compare a b with
      | Lt => true
      | Gt => false
      | Eq => path_leb p' q'
      end
  end.

Definition path_le (p q : path) : Prop := path_leb p q = true.

#[global] Instance path_le_dec : RelDecision path_le.
Proof. intros p q. unfold path_le. apply _. Defined.





End Hitl.

(** * [orchestrator.py] *)

Module Orchestrator.

(** The values the [status] attribute takes. *)
Inductive Status : Type :=
  | idle | running | missing | failed | stopped | crashed | abandoned.

#[global] Instance Status_eq_dec : EqDecision Status.
Proof. solve_decision. Defined.

Record AgentProcess : Type := mkAgent {
  agent_name : string;
  script : string;
  group : string;
  required : bool;
  args : list string;
  process : option Popen;
  status : Status;
  restarts : Z;
}.

Definition MAX_RESTARTS : Z := 5.

(** [AgentProcess.__init__]. *)
Definition new (name script group : string) (required : bool) (args : list string)
    : AgentProcess :=
  mkAgent name script group required args None idle 0.

Definition set_status (s : Status) (a : AgentProcess) : AgentProcess :=
  mkAgent (agent_name a) (script a) (group a) (required a) (args a)
          (process a) s (restarts a).

Definition set_process (p : Popen) (a : AgentProcess) : AgentProcess :=
  mkAgent (agent_name a) (script a) (group a) (required a) (args a)
          (Some p) (status a) (restarts a).

Definition set_restarts (n : Z) (a : AgentProcess) : AgentProcess :=
  mkAgent (agent_name a) (script a) (group a) (required a) (args a)
          (process a) (status a) n.

(** [subprocess.Popen(cmd, ...)]: the call is recorded; it either raises
    or returns a handle on a new child. *)
Definition popen (cmd : Cmd) : Py Popen :=
  λ w,
    let w1 := mkWorld (fs w) (audit w) (clock w) (utc_compact w) (utc_iso w) (environ w)
                      (can_spawn w) (still_running w) (terminated w) (next_pid w)
                      (popen_calls w ++ [cmd]) in
    if can_spawn w cmd then
      (Return (mkPopen (next_pid w) cmd),
       mkWorld (fs w1) (audit w1) (clock w1) (utc_compact w1) (utc_iso w1) (environ w1)
               (can_spawn w1) (still_running w1) (terminated w1) (S (next_pid w1))
               (popen_calls w1))
    else (Raise PermissionError, w1).

(** [Popen.poll() is None]. *)
Definition poll_is_none (p : Popen) : Py bool :=
  λ w, (Return (still_running w p && bool_decide (pid p ∉ terminated w)), w).

(** [terminate()], [wait(timeout=5)] and, on time-out, [kill()]: the
    child is gone afterwards. *)
Definition terminate_and_wait (p : Popen) : Py unit :=
  λ w, (Return tt,
        mkWorld (fs w) (audit w) (clock w) (utc_compact w) (utc_iso w) (environ w)
                (can_spawn w) (still_running w) ({[pid p]} ∪ terminated w) (next_pid w)
                (popen_calls w)).

Definition start (self : AgentProcess) : Py (AgentProcess * bool) :=
  let script_path := AGENTS_DIR // script self in
  tr <- get_fs ;;
  if negb (path_exists tr script_path) then ret (set_status missing self, false) else
  try_except
    (p <- popen (mkCmd script_path (args self)) ;;
     let self1 := set_status running (set_process p self) in
     log_action4 "agent_started" "orchestrator" (agent_name self) (StartedPid (pid p)) ;;;
     ret (self1, true))
    (λ _, true)
    (λ _, ret (set_status failed self, false)).

Definition is_alive (self : AgentProcess) : Py bool :=
  match process self with
  | None => ret false
  | Some p => poll_is_none p
  end.

Definition stop (self : AgentProcess) : Py AgentProcess :=
  alive <- is_alive self ;;
  (match process self with
   | Some p => if alive then terminate_and_wait p else ret tt
   | None => ret tt
   end) ;;;
  ret (set_status stopped self).

(** [restart]; the diagnostic output read by [get_exit_info] is only
    printed. *)
Definition restart (self : AgentProcess) : Py (AgentProcess * bool) :=
  if bool_decide (restarts self >= MAX_RESTARTS)%Z then
    ret (set_status abandoned self, false)
  else
    self1 <- stop self ;;
    let self2 := set_restarts (restarts self1 + 1) self1 in
    start self2.

(** The body of the loop of [health_check] for one record. *)
Definition health_check_agent (agent : AgentProcess) : Py AgentProcess :=
  if bool_decide (status agent ∈ [abandoned; missing; idle]) then ret agent else
  alive <- is_alive agent ;;
  if negb alive && bool_decide (status agent = running) then
    r <- restart (set_status crashed agent) ;;
    ret r.1
  else ret agent.

(** A [for] loop that updates every record of a list in place. *)
Fixpoint for_update {A} (l : list A) (body : A → Py A) : Py (list A) :=
  match l with
  | [] => ret []
  | x :: l' => x' <- body x ;; l'' <- for_update l' body ;; ret (x' :: l'')
  end.

Record t : Type := mk { mode : string; agents : list AgentProcess; is_running : bool }.

Definition set_agents (l : list AgentProcess) (self : t) : t :=
  mk (mode self) l (is_running self).

(** [Orchestrator.__init__] on configurations already turned into
    records by [new]. *)
Definition init (agents_config : list AgentProcess) (mode : string) : t :=
  mk mode agents_config true.

Definition start_all (self : t) : Py t :=
  l <- for_update (agents self) (λ a, r <- start a ;; ret r.1) ;;
  ret (set_agents l self).

Definition stop_all (self : t) : Py t :=
  l <- for_update (agents self) stop ;;
  ret (set_agents l self).

Definition health_check (self : t) : Py t :=
  l <- for_update (agents self) health_check_agent ;;
  ret (set_agents l self).

(** [n] rounds of the loop of [run]. *)
Fixpoint health_checks (n : nat) (self : t) : Py t :=
  match n with
  | O => ret self
  | S n' => self' <- health_check self ;; health_checks n' self'
  end.

End Orchestrator.

(** * [config.py]: the remaining directories and [ensure_dirs] *)

Definition ACCOUNTING_DIR : path := VAULT_ROOT // "Accounting".
Definition LOGS_DIR : path := VAULT_ROOT // "Logs".
Definition PROJECTS_DIR : path := VAULT_ROOT // "Projects".
Definition PLANS_DIR : path := VAULT_ROOT // "Plans".
Definition UPDATES_DIR : path := VAULT_ROOT // "Updates".
Definition SIGNALS_DIR : path := VAULT_ROOT // "Signals".

Definition DOMAINS : list string := ["email"; "social"; "accounting"; "calendar"; "general"].

(** The base directories, then three sub-queues for every domain, then
    the scratch queues of the two workers. *)
Definition ALL_DIRS : list path :=
  [ INBOX_DIR; NEEDS_ACTION_DIR; DONE_DIR; AGENTS_DIR;
    PENDING_APPROVAL_DIR; APPROVED_DIR; ACCOUNTING_DIR;
    LOGS_DIR; PROJECTS_DIR; PLANS_DIR; IN_PROGRESS_DIR;
    UPDATES_DIR; SIGNALS_DIR ]
  ++ flat_map (λ _d, [ NEEDS_ACTION_DIR // _d; PLANS_DIR // _d; PENDING_APPROVAL_DIR // _d ])
              DOMAINS
  ++ [ IN_PROGRESS_DIR // "cloud_agent"; IN_PROGRESS_DIR // "local_agent" ].

Definition ensure_dirs : Py unit := for_each ALL_DIRS mkdir_p.

(** * [config.py]: the [.env] file and the agent mode *)

Definition with_environ (e : gmap string string) (w : World) : World :=
  mkWorld (fs w) (audit w) (clock w) (utc_compact w) (utc_iso w) e
          (can_spawn w) (still_running w) (terminated w) (next_pid w) (popen_calls w).

(** Every character of [s] satisfies [p]. *)
Fixpoint all_chars (p : ascii → bool) (s : string) : bool :=
  match s with
  | EmptyString => true
  | String c s' => p c && all_chars p s'
  end.

Module Dotenv.
Import PyStr.

(** [s.endswith(suf)]. *)
Fixpoint endswith (s suf : string) : bool :=
  String.eqb s suf ||
  match s with
  | EmptyString => false
  | String _ s' => endswith s' suf
  end.

(** The double quote character, as a string. *)
Definition dquote : string := String (ascii_of_N 34) EmptyString.

(** [s[1:-1]]. *)
Definition inner (s : string) : string :=
  String.substring 1 (String.length s - 2) s.

(** [os.environ[key] = value] raises [ValueError] when the key or the
    value holds a NUL character. *)
Definition nul_free (s : string) : bool :=
  all_chars (λ c, negb (bool_decide (c = Ascii.zero))) s.

(** The body of the loop of [_load_dotenv] for one line; [env] is
    [os.environ], and [None] stands for the [ValueError] of the
    assignment. *)
Definition dotenv_line (env : gmap string string) (line : string)
    : option (gmap string string) :=
  let line := strip line in
  if is_empty line || startswith line "#" then Some env else
  match partition "="%char line with
  | None => Some env
  | Some (key, value) =>
      let key := strip key in
      let value := strip value in
      let value := if startswith value dquote && endswith value dquote
                   then inner value else value in
      if negb (is_empty key) && negb (bool_decide (is_Some (env !! key)))
      then if nul_free key && nul_free value then Some (<[key := value]> env) else None
      else Some env
  end.

(** The loop: the environment reached, and whether every line was
    processed. *)
Fixpoint dotenv_lines (env : gmap string string) (lines : list string)
    : gmap string string * bool :=
  match lines with
  | [] => (env, true)
  | line :: rest =>
      match dotenv_line env line with
      | Some env' => dotenv_lines env' rest
      | None => (env, false)
      end
  end.

(** How [_load_dotenv] ends. *)
Inductive Loaded : Type :=
  | Returned
  | RaisedOSError (e : exn)
  | RaisedValueError.

Definition _load_dotenv (w : World) : Loaded * World :=
  let env_file := VAULT_ROOT // ".env" in
  if negb (path_exists (fs w) env_file) then (Returned, w) else
  match read_text env_file w with
  | (Raise e, w1) => (RaisedOSError e, w1)
  | (Return content, w1) =>
      let (env, finished) := dotenv_lines (environ w1) (splitlines content) in
      (if finished then Returned else RaisedValueError, with_environ env w1)
  end.

End Dotenv.

(** [AGENT_MODE = os.getenv("AGENT_MODE", "standalone").lower()]. *)
Definition AGENT_MODE (env : gmap string string) : string :=
  PyStr.lower (getenv env "AGENT_MODE" "standalone").

Definition is_cloud (env : gmap string string) : bool := String.eqb (AGENT_MODE env) "cloud".
Definition is_local (env : gmap string string) : bool := String.eqb (AGENT_MODE env) "local".
Definition is_standalone (env : gmap string string) : bool :=
  String.eqb (AGENT_MODE env) "standalone".

(** * [hitl_approval.py]: one round of the monitor *)

Module Gate.
Import Hitl.


End Gate.

(** * [orchestrator.py]: the rosters and [main] *)

Module Rosters.
Import Orchestrator.

Definition AGENTS_STANDALONE : list AgentProcess := [
  new "inbox_watcher" "inbox_watcher.py" "watcher" true [];
  new "gmail_watcher" "gmail_watcher.py" "watcher" false [];
  new "whatsapp_watcher" "whatsapp_watcher.py" "watcher" false [];
  new "task_router" "task_router.py" "reasoning" true [];
  new "reasoning_loop" "reasoning_loop.py" "reasoning" true [];
  new "hitl_approval" "hitl_approval.py" "control" true [];
  new "audit_agent" "audit_agent.py" "reporting" false [] ].

Definition AGENTS_CLOUD : list AgentProcess := [
  new "cloud_agent" "cloud_agent.py" "cloud" true [];
  new "sync_manager" "sync_manager.py" "sync" true ["--auto"];
  new "inbox_watcher" "inbox_watcher.py" "watcher" true [];
  new "gmail_watcher" "gmail_watcher.py" "watcher" false [];
  new "task_router" "task_router.py" "reasoning" true [];
  new "reasoning_loop" "reasoning_loop.py" "reasoning" true [];
  new "audit_agent" "audit_agent.py" "reporting" false [] ].

Definition AGENTS_LOCAL : list AgentProcess := [
  new "local_agent" "local_agent.py" "local" true [];
  new "sync_manager" "sync_manager.py" "sync" true ["--auto"];
  new "whatsapp_watcher" "whatsapp_watcher.py" "watcher" false [];
  new "hitl_approval" "hitl_approval.py" "control" true [];
  new "inbox_watcher" "inbox_watcher.py" "watcher" true [] ].

Definition AGENTS_MINIMAL : list AgentProcess := [
  new "inbox_watcher" "inbox_watcher.py" "watcher" true [];
  new "task_router" "task_router.py" "reasoning" true [];
  new "reasoning_loop" "reasoning_loop.py" "reasoning" true [];
  new "hitl_approval" "hitl_approval.py" "control" true [] ].

(** [main] up to the call of [run]: the supervisor it builds from the
    command line and [AGENT_MODE]. *)
Definition main (argv : list string) (env : gmap string string) : Orchestrator.t :=
  let '(mode, agents) :=
    if bool_decide ("--cloud" ∈ argv) then ("cloud", AGENTS_CLOUD)
    else if bool_decide ("--local" ∈ argv) then ("local", AGENTS_LOCAL)
    else if bool_decide ("--minimal" ∈ argv) then ("minimal", AGENTS_MINIMAL)
    else
      let mode := if bool_decide (AGENT_MODE env ∈ ["cloud"; "local"])
                  then AGENT_MODE env else "standalone" in
      let by_mode : gmap string (list AgentProcess) :=
        list_to_map [ ("cloud", AGENTS_CLOUD); ("local", AGENTS_LOCAL);
                      ("standalone", AGENTS_STANDALONE) ] in
      (mode, default AGENTS_STANDALONE (by_mode !! mode))
  in init agents mode.

End Rosters.

(** * Vocabulary of the properties

    The predicates, counters and concrete states the theorems below are
    stated with. *)

(** A tree as a file system has it: the root is a directory, no
    component is empty, and every entry sits in a directory. *)
Definition wf_tree (t : tree) : Prop :=
  t !! [] = Some Dir ∧
  ∀ p nd, t !! p = Some nd → ("" ∉ p) ∧ (p ≠ [] → t !! parent p = Some Dir).

Ltac py_unfold :=
  unfold bind, ret, raise, try_except, get_fs, put_fs, log_action4, log_action, dry_run in *;
  simpl in *.

Section claims_terms.
Import ClaimManager.

(** Some worker's scratch queue holds an entry named [n]. *)
Definition held_by_someone (t : tree) (n : string) : Prop :=
  ∃ agent_dir, agent_dir ≠ [] ∧ parent agent_dir = IN_PROGRESS_DIR ∧
               t !! agent_dir = Some Dir ∧ is_Some (t !! (agent_dir // n)).

(** A manager as [__init__] builds it for a non-empty worker name. *)
Definition proper (self : ClaimManager.t) : Prop :=
  agent_name self ≠ "" ∧ claim_dir self = IN_PROGRESS_DIR // agent_name self.

End claims_terms.

Section stale_terms.
Import ClaimManager.



End stale_terms.

Section gate_terms.
Import Hitl.














End gate_terms.

Section supervisor_terms.
Import Orchestrator.


(** The child of the record is gone (or was never started). *)
Definition dead (a : AgentProcess) (w : World) : Prop :=
  is_alive a w = (Return false, w).

(** The command line of a record. *)
Definition cmd_of (a : AgentProcess) : Cmd := mkCmd (AGENTS_DIR // script a) (args a).

(** What the supervisor cannot change: the tree, and how children behave. *)
Definition same_env (w w' : World) : Prop :=
  fs w' = fs w ∧ can_spawn w' = can_spawn w ∧ still_running w' = still_running w.



(** How often [cmd] was handed to [Popen]. *)
Definition spawn_count (cmd : Cmd) (w : World) : nat :=
  length (List.filter (λ c, bool_decide (c = cmd)) (popen_calls w)).


(** C8 as the specification states it: a pass over a failed record whose
    child is not alive goes the way of a crash, that is, it calls
    [restart] on the record. *)
Definition failed_is_retried : Prop :=
  ∀ a w, status a = failed → dead a w →
         ∃ a' ok w', restart (set_status crashed a) w = (Return (a', ok), w') ∧
                     health_check_agent a w = (Return a', w').

End supervisor_terms.

Section failures_terms.
Import ClaimManager.



End failures_terms.

Section concrete_terms.
Import Hitl.

(** A decidable test of well-formedness, for concrete trees. *)
Definition wf_treeb (t : tree) : bool :=
  is_dir t [] &&
  forallb (λ kv : path * node,
             bool_decide ("" ∉ kv.1) &&
             (bool_decide (kv.1 = []) || is_dir t (parent kv.1)))
          (map_to_list t).




(** A world around a tree: nothing logged yet, the clock at [now], no
    variable set, every launch succeeding with a child that exits at once. *)
Definition world_of (t : tree) (now : Q) : World :=
  mkWorld t [] now "20260101T120000" "2026-01-01T12:00:00+00:00" ∅
          (λ _, true) (λ _, false) ∅ 100 [].

Definition vault_dirs : list (path * node) :=
  [ ([], Dir); (VAULT_ROOT, Dir); (NEEDS_ACTION_DIR, Dir); (DONE_DIR, Dir);
    (APPROVED_DIR, Dir); (AGENTS_DIR, Dir); (IN_PROGRESS_DIR, Dir);
    (IN_PROGRESS_DIR // "cloud_agent", Dir); (IN_PROGRESS_DIR // "local_agent", Dir) ].

Definition cloud : ClaimManager.t :=
  ClaimManager.mk "cloud_agent" (IN_PROGRESS_DIR // "cloud_agent").
Definition local : ClaimManager.t :=
  ClaimManager.mk "local_agent" (IN_PROGRESS_DIR // "local_agent").

(** [beta.md] is held by the cloud worker while a file of that name and
    a free [gamma.md] wait in Needs_Action. *)
Definition claims_world : World :=
  world_of (list_to_map (vault_dirs ++ [
    (IN_PROGRESS_DIR // "cloud_agent" // "beta.md", File "type: task" 10 true);
    (NEEDS_ACTION_DIR // "beta.md", File "type: task" 20 true);
    (NEEDS_ACTION_DIR // "gamma.md", File "type: task" 30 true) ])) 100.

(** The cloud worker holds [report.md]; Done already has a [report.md]. *)
Definition collision_world : World :=
  world_of (list_to_map (vault_dirs ++ [
    (IN_PROGRESS_DIR // "cloud_agent" // "report.md", File "second report" 200 true);
    (DONE_DIR // "report.md", File "first report" 100 true) ])) 300.



Definition supervisor_world : World :=
  world_of (list_to_map (vault_dirs ++ [
    (AGENTS_DIR // "inbox_watcher.py", File "import sys" 1 true) ])) 50.

(** A failed record: its launch could not spawn. *)
Definition failed_watcher : Orchestrator.AgentProcess :=
  Orchestrator.mkAgent "inbox_watcher" "inbox_watcher.py" "watcher" true []
    None Orchestrator.failed 0.








End concrete_terms.

(** * Vocabulary of the further properties *)

Section claims_more_terms.
Import ClaimManager.




End claims_more_terms.

Section gate_more_terms.
Import Hitl.





(** A computation that reads and writes the tree only: run in a world
    with the same tree, it gives the same result and the same tree, and
    leaves everything else as it found it. *)
Definition fs_only {A} (m : Py A) : Prop :=
  ∀ w0 w, m (with_fs (fs w) w0) = ((m w).1, with_fs (fs (m w).2) w0).




End gate_more_terms.

Section supervisor_more_terms.
Import Orchestrator.

(** The script of the record is there. *)
Definition has_script (t : tree) (a : AgentProcess) : bool :=
  path_exists t (AGENTS_DIR // script a).

(** What [start] makes of a record. *)
Definition status_after_start (w : World) (a : AgentProcess) : Status :=
  if has_script (fs w) a then
    if can_spawn w (cmd_of a) then running else failed
  else missing.

(** The child of the record exists and has neither exited nor been
    terminated. *)
Definition alive (a : AgentProcess) (w : World) : bool :=
  match process a with
  | None => false
  | Some p => still_running w p && bool_decide (pid p ∉ terminated w)
  end.

(** The names of the roles of a roster. *)
Definition roles (l : list AgentProcess) : list string := map agent_name l.

End supervisor_more_terms.

Section dotenv_terms.
Import PyStr.

(** A key as [.env] files have them: no white space, no equals sign, no
    NUL, and not the start of a comment. *)
Definition key_char (c : ascii) : bool :=
  negb (is_space c) && negb (bool_decide (c = "="%char)) && negb (bool_decide (c = Ascii.zero)).

Definition plain_key (k : string) : Prop :=
  k ≠ "" ∧ all_chars key_char k = true ∧ startswith k "#" = false.

End dotenv_terms.

Section concrete_more_terms.
Import Hitl.


Definition no_filesb (t : tree) : bool :=
  forallb (λ kv : path * node, match kv.2 with Dir => true | File _ _ _ => false end)
          (map_to_list t).

(** A text file with these lines. *)
Definition text_of (lines : list string) : string :=
  String.concat (String (ascii_of_N 10) EmptyString) lines.


(** A disk with nothing on it. *)
Definition empty_world : World := world_of (list_to_map [([], Dir)]) 0.

(** The process sets [DRY_RUN=true]; the [.env] file of the vault says
    otherwise and names a mode. *)
Definition env_world : World :=
  with_environ {[ "DRY_RUN" := "true" ]}
    (world_of (list_to_map [
       ([], Dir); (VAULT_ROOT, Dir);
       (VAULT_ROOT // ".env",
        File (text_of ["# settings"; "DRY_RUN=false"; "AGENT_MODE = cloud"]) 1 true) ]) 0).

(** A task file with a header. *)
Definition header_text : string :=
  text_of ["---"; "  action: deploy_checklist  "; "action: draft_email_reply"; "---"].


End concrete_more_terms.

Section collision_terms.
Import Hitl.


End collision_terms.

Section archive_terms.
Import Hitl.


End archive_terms.

Section archive_concrete_terms.
Import Hitl.


End archive_concrete_terms.

(** * Properties *)

(** ** Paths and trees *)

Lemma parent_snoc (p : path) (n : string) : parent (p ++ [n]) = p.
Proof. unfold parent. apply removelast_last. Qed.


Lemma joinpath_snoc (p : path) (n : string) : n ≠ "" → p // n = p ++ [n].
Proof. intros Hn. unfold joinpath. by destruct (decide (n = "")). Qed.

Lemma path_snoc_inv (p : path) : p ≠ [] → p = parent p ++ [name p].
Proof. intros Hp. unfold parent, name. by apply app_removelast_last. Qed.

Lemma name_not_empty (p : path) : p ≠ [] → "" ∉ p → name p ≠ "".
Proof.
  intros Hp Hno Hn. apply Hno. rewrite (path_snoc_inv p Hp), Hn.
  apply elem_of_app. right. apply list_elem_of_singleton. done.
Qed.


Lemma elem_of_children (t : tree) (p k : path) :
  k ∈ children t p ↔ k ≠ [] ∧ parent k = p ∧ is_Some (t !! k).
Proof.
  unfold children. rewrite list_elem_of_filter. unfold is_child.
  rewrite bool_decide_eq_true. split.
  - intros [[? ?] Hin]. split_and!; auto.
    apply list_elem_of_fmap in Hin as [[k' nd] [-> Hin]].
    apply elem_of_map_to_list in Hin. eauto.
  - intros (? & ? & [nd Hnd]). split; [done|].
    apply list_elem_of_fmap. exists (k, nd). split; [done|].
    by apply elem_of_map_to_list.
Qed.


Lemma is_dir_true (t : tree) (p : path) : is_dir t p = true ↔ t !! p = Some Dir.
Proof. unfold is_dir. destruct (t !! p) as [[]|]; naive_solver. Qed.

Lemma is_dir_false (t : tree) (p : path) : is_dir t p = false ↔ t !! p ≠ Some Dir.
Proof. unfold is_dir. destruct (t !! p) as [[]|]; naive_solver. Qed.

Lemma is_file_true (t : tree) (p : path) :
  is_file t p = true ↔ ∃ c m r, t !! p = Some (File c m r).
Proof.
  unfold is_file. destruct (t !! p) as [[c m r|]|]; split; try done.
  - eauto.
  - by intros (? & ? & ? & ?).
  - by intros (? & ? & ? & ?).
Qed.



Lemma wf_tree_parent (t : tree) (p : path) (n : string) (nd : node) :
  wf_tree t → t !! (p ++ [n]) = Some nd → t !! p = Some Dir ∧ n ≠ "".
Proof.
  intros [_ Hwf] Hl. destruct (Hwf _ _ Hl) as [Hno Hpar]. split.
  - rewrite <- (parent_snoc p n). apply Hpar. by destruct p.
  - intros ->. apply Hno. apply elem_of_app. right. by apply list_elem_of_singleton.
Qed.

(** Record surgery on the world. *)
Lemma with_fs_same (w : World) : with_fs (fs w) w = w.
Proof. by destruct w. Qed.

Lemma fs_with_fs (t : tree) (w : World) : fs (with_fs t w) = t.
Proof. done. Qed.

Lemma fs_with_audit (a : list LogEntry) (w : World) : fs (with_audit a w) = fs w.
Proof. done. Qed.

(** ** Moving a regular file *)

(** Moving a regular file onto a path that is not a directory, inside an
    existing directory, succeeds: the file leaves its old path and appears
    at the new one, replacing whatever regular file was there. *)
Lemma shutil_move_file (src dst : path) (w : World) (c : string) (m : Q) (r : bool) :
  fs w !! src = Some (File c m r) →
  is_dir (fs w) dst = false →
  fs w !! parent dst = Some Dir →
  src ≠ dst →
  shutil_move src dst w
  = (Return dst, with_fs (<[dst := File c m r]> (delete src (fs w))) w).
Proof.
  intros Hsrc Hnd Hpar Hne.
  unfold shutil_move, rename_or_copy, os_rename. py_unfold. rewrite Hnd. simpl.
  rewrite Hsrc. destruct (decide (src = dst)); [done|].
  rewrite Hpar. unfold is_dir in Hnd.
  destruct (fs w !! dst) as [[]|] eqn:Hd; try done.
Qed.

(** Without a directory to receive it, the move of a regular file fails
    and nothing changes. *)
Lemma shutil_move_file_no_parent (src dst : path) (w : World) (c : string) (m : Q) (r : bool) :
  fs w !! src = Some (File c m r) →
  is_dir (fs w) dst = false →
  fs w !! parent dst ≠ Some Dir →
  src ≠ dst →
  ∃ e, shutil_move src dst w = (Raise e, w).
Proof.
  intros Hsrc Hnd Hpar Hne.
  assert (Hsd : is_dir (fs w) src = false) by (unfold is_dir; by rewrite Hsrc).
  unfold shutil_move, rename_or_copy, os_rename, copy2_unlink. py_unfold. rewrite Hnd. simpl.
  rewrite Hsrc. destruct (decide (src = dst)); [done|].
  destruct (fs w !! parent dst) as [[]|] eqn:Hp; simpl; try done;
    rewrite Hsd, ?Hsrc, ?Hp; destruct r; simpl; eauto.
Qed.



(** ** Creating directories *)

(** [mkdir_p] only adds directories, and only at absent prefixes. *)
Lemma lookup_foldl_mkdir (l : list path) (t : tree) (k : path) :
  foldl mkdir_step t l !! k
  = match t !! k with
    | Some x => Some x
    | None => if decide (k ∈ l) then Some Dir else None
    end.
Proof.
  revert t. induction l as [|d l IH]; intros t; simpl.
  - destruct (t !! k); [done|]. destruct (decide (k ∈ [])) as [Hin|]; [|done].
    by apply elem_of_nil in Hin.
  - rewrite IH. unfold mkdir_step.
    destruct (decide (k = d)) as [->|Hne].
    + destruct (t !! d) eqn:Hd; [by rewrite Hd|]. rewrite lookup_insert_eq.
      destruct (decide (d ∈ d :: l)) as [|Hn]; [done|]. exfalso. apply Hn. by left.
    + assert (Hl : (match t !! d with Some _ => t | None => <[d:=Dir]> t end) !! k = t !! k).
      { destruct (t !! d); [done|]. by rewrite lookup_insert_ne. }
      rewrite Hl. destruct (t !! k); [done|].
      destruct (decide (k ∈ l)), (decide (k ∈ d :: l)) as [Hin|Hn]; try done.
      * exfalso. apply Hn. by right.
      * apply elem_of_cons in Hin as [?|?]; done.
Qed.

Lemma elem_of_prefixes_from (pre rest : path) :
  rest ≠ [] → pre ++ rest ∈ prefixes_from pre rest.
Proof.
  revert pre. induction rest as [|c rest IH]; intros pre Hne; [done|]. simpl.
  destruct rest as [|c' rest'].
  - left.
  - right. rewrite (cons_middle c), app_assoc. by apply IH.
Qed.

Lemma mkdir_p_outcomes (p : path) (w w' : World) (res : outcome unit) :
  mkdir_p p w = (res, w') →
  (∃ e, res = Raise e ∧ w' = w ∧ fs w !! p ≠ Some Dir) ∨
  (res = Return tt ∧ w' = w ∧ fs w !! p = Some Dir) ∨
  (res = Return tt ∧ fs w !! p = None ∧
   w' = with_fs (foldl mkdir_step (fs w) (prefixes_from [] p)) w).
Proof.
  unfold mkdir_p. py_unfold.
  destruct (fs w !! p) as [[]|] eqn:Hl; simpl.
  - intros [= <- <-]. left. eexists. split_and!; eauto.
  - intros [= <- <-]. right. left. done.
  - destruct (file_on_the_way (fs w) [] p); simpl; intros [= <- <-].
    + left. eexists. split_and!; eauto.
    + right. right. done.
Qed.

Lemma mkdir_p_creates (p : path) (w w' : World) :
  p ≠ [] → mkdir_p p w = (Return tt, w') → fs w' !! p = Some Dir.
Proof.
  intros Hp Hmk.
  destruct (mkdir_p_outcomes _ _ _ _ Hmk) as [(e & ? & _)|[(_ & -> & ?)|(_ & Hn & ->)]];
    [done|done|].
  simpl. rewrite lookup_foldl_mkdir, Hn.
  destruct (decide _) as [|Hnin]; [done|]. exfalso. apply Hnin.
  by apply (elem_of_prefixes_from []).
Qed.

(** Whatever [mkdir_p] does, entries that were there stay as they are. *)
Lemma mkdir_p_keeps (p k : path) (w w' : World) (res : outcome unit) (nd : node) :
  mkdir_p p w = (res, w') → fs w !! k = Some nd → fs w' !! k = Some nd.
Proof.
  intros Hmk Hk.
  destruct (mkdir_p_outcomes _ _ _ _ Hmk) as [(e & _ & -> & _)|[(_ & -> & ?)|(_ & Hn & ->)]];
    [done|done|].
  simpl. by rewrite lookup_foldl_mkdir, Hk.
Qed.

(** ** The claim protocol *)

Section claims.
Import ClaimManager.

Lemma proper_claim_dir (self : ClaimManager.t) :
  proper self → claim_dir self ≠ [] ∧ parent (claim_dir self) = IN_PROGRESS_DIR.
Proof.
  intros [Hn ->]. rewrite joinpath_snoc by done. split.
  - by destruct IN_PROGRESS_DIR.
  - apply parent_snoc.
Qed.

Lemma init_proper (agent : string) (w w' : World) (self : ClaimManager.t) :
  agent ≠ "" → init agent w = (Return self, w') →
  proper self ∧ fs w' !! claim_dir self = Some Dir.
Proof.
  intros Hn. unfold init. unfold bind at 1.
  destruct (mkdir_p (IN_PROGRESS_DIR // agent) w) as [[[]|e] w1] eqn:Hmk; [|done].
  intros [= <- <-]. split; [done|]. simpl. eapply mkdir_p_creates; [|done].
  rewrite joinpath_snoc by done. by destruct IN_PROGRESS_DIR.
Qed.

Lemma scan_claims_true (tr : tree) (n : string) (dirs : list path) (agent_dir : path) :
  agent_dir ∈ dirs → tr !! agent_dir = Some Dir → is_Some (tr !! (agent_dir // n)) →
  scan_claims tr n dirs = true.
Proof.
  intros Hin Hd [x Hx]. unfold scan_claims. apply existsb_exists.
  exists agent_dir. split; [by apply list_elem_of_In|].
  unfold is_dir, path_exists. by rewrite Hd, Hx.
Qed.

Lemma scan_claims_false (tr : tree) (n : string) (dirs : list path) (agent_dir : path) :
  scan_claims tr n dirs = false → agent_dir ∈ dirs → tr !! agent_dir = Some Dir →
  tr !! (agent_dir // n) = None.
Proof.
  intros Hs Hin Hd. destruct (tr !! (agent_dir // n)) eqn:Hx; [|done].
  rewrite (scan_claims_true tr n dirs agent_dir) in Hs; eauto. done.
Qed.

Lemma is_claimed_by_anyone_held (self : ClaimManager.t) (n : string) (w : World) :
  fs w !! IN_PROGRESS_DIR = Some Dir → held_by_someone (fs w) n →
  is_claimed_by_anyone self n w = (Return true, w).
Proof.
  intros Hip (agent_dir & Hne & Hpar & Hd & Hx).
  unfold is_claimed_by_anyone, iterdir. py_unfold. rewrite Hip. simpl.
  rewrite (scan_claims_true _ _ _ agent_dir); auto.
  apply elem_of_children. rewrite Hd. eauto.
Qed.

(** A claim on a name that some scratch queue holds is refused and
    nothing changes. *)
Lemma claim_refused (self : ClaimManager.t) (src : path) (w : World) :
  fs w !! IN_PROGRESS_DIR = Some Dir → held_by_someone (fs w) (name src) →
  claim self src w = (Return None, w).
Proof.
  intros Hip Hheld. unfold claim. unfold bind at 1, get_fs at 1.
  destruct (path_exists (fs w) src); simpl; [|done].
  unfold bind at 1. by rewrite is_claimed_by_anyone_held.
Qed.

(** What a successful claim of a regular file leaves behind. *)
Lemma claim_file_success (self : ClaimManager.t) (src dest : path) (w w' : World)
    (c : string) (m : Q) (r : bool) :
  wf_tree (fs w) → proper self →
  fs w !! src = Some (File c m r) →
  claim self src w = (Return (Some dest), w') →
  dest = claim_dir self ++ [name src] ∧
  fs w !! dest = None ∧
  fs w !! claim_dir self = Some Dir ∧
  fs w !! IN_PROGRESS_DIR = Some Dir ∧
  ¬ held_by_someone (fs w) (name src) ∧
  fs w' = <[dest := File c m r]> (delete src (fs w)).
Proof.
  intros Hwf Hself Hsrc. destruct (proper_claim_dir _ Hself) as [Hcne Hcpar].
  assert (Hn : name src ≠ "").
  { destruct Hwf as [Hroot Hwf]. destruct (Hwf _ _ Hsrc) as [Hno _].
    apply name_not_empty; [|done]. intros ->. congruence. }
  unfold claim. unfold bind at 1, get_fs at 1.
  unfold path_exists at 1. rewrite Hsrc. simpl.
  unfold bind at 1. unfold is_claimed_by_anyone, iterdir. unfold bind at 1 2, get_fs at 1.
  destruct (fs w !! IN_PROGRESS_DIR) as [[]|] eqn:Hip; try done.
  unfold ret at 1. unfold bind at 1, get_fs at 1, ret at 1.
  destruct (scan_claims _ _ _) eqn:Hscan; [done|].
  rewrite joinpath_snoc by done.
  remember (claim_dir self ++ [name src]) as dest' eqn:Hdest'.
  assert (Hfree : fs w !! claim_dir self = Some Dir → fs w !! dest' = None).
  { intros Hd. rewrite Hdest', <- joinpath_snoc by done.
    apply (scan_claims_false _ _ _ _ Hscan); [|done].
    apply elem_of_children. rewrite Hd. eauto. }
  assert (Hdest : fs w !! dest' = None).
  { destruct (fs w !! dest') eqn:Hl; [|done].
    rewrite Hdest' in Hl. destruct (wf_tree_parent _ _ _ _ Hwf Hl) as [Hd _].
    by apply Hfree. }
  assert (Hisd : is_dir (fs w) dest' = false) by (unfold is_dir; by rewrite Hdest).
  assert (Hne : src ≠ dest') by (intros ->; congruence).
  unfold try_except. unfold bind at 1.
  destruct (is_dir (fs w) (claim_dir self)) eqn:Hcd;
    [apply is_dir_true in Hcd | apply is_dir_false in Hcd].
  - rewrite (shutil_move_file _ _ _ c m r); try done.
    + py_unfold. intros [= <- <-]. split_and!; try done.
      intros (a & Hane & Hapar & Had & Hax).
      rewrite (scan_claims_true _ _ _ a) in Hscan; try done.
      apply elem_of_children. rewrite Had. eauto.
    + by rewrite Hdest', parent_snoc.
  - destruct (shutil_move_file_no_parent src dest' w c m r) as [e ->]; try done.
    by rewrite Hdest', parent_snoc.
Qed.

(** *** Claim C1 *)

(** C1. Mutual exclusion of claims.  In a well-formed tree, a claim on a
    name that some scratch queue (a sub-directory of [In_Progress])
    already holds returns [None] and leaves the world as it was, whoever
    asks, the holder included.  Consequently, once a worker has claimed
    a task file, its scratch queue is the only one holding that name,
    and every further claim of that name by any worker returns [None]
    and changes nothing. *)
Theorem claim_mutual_exclusion (self : ClaimManager.t) (w : World) :
  wf_tree (fs w) →
  (∀ src, held_by_someone (fs w) (name src) → claim self src w = (Return None, w)) ∧
  (∀ src dest w',
     proper self → is_file (fs w) src = true →
     claim self src w = (Return (Some dest), w') →
     fs w' !! (claim_dir self // name src) = fs w !! src ∧
     (∀ agent_dir, agent_dir ≠ [] → parent agent_dir = IN_PROGRESS_DIR →
                   fs w' !! agent_dir = Some Dir →
                   is_Some (fs w' !! (agent_dir // name src)) →
                   agent_dir = claim_dir self) ∧
     (∀ other src', name src' = name src → claim other src' w' = (Return None, w'))).
Proof.
  intros Hwf. split.
  - intros src Hheld. apply claim_refused; [|done].
    destruct Hheld as (a & Hane & Hapar & Had & _).
    rewrite (path_snoc_inv a Hane) in Had.
    destruct (wf_tree_parent _ _ _ _ Hwf Had) as [Hd _]. by rewrite Hapar in Hd.
  - intros src dest w' Hself Hfile Hclaim.
    apply is_file_true in Hfile as (c & m & r & Hsrc).
    destruct (claim_file_success _ _ _ _ _ _ _ _ Hwf Hself Hsrc Hclaim)
      as (-> & Hfree & Hcd & Hip & Hnot & Hfs').
    destruct (proper_claim_dir _ Hself) as [Hcne Hcpar].
    assert (Hn : name src ≠ "").
    { destruct Hwf as [Hroot Hwf]. destruct (Hwf _ _ Hsrc) as [Hno _].
      apply name_not_empty; [|done]. intros ->. congruence. }
    assert (Hkeep : ∀ k, fs w !! k = Some Dir → fs w' !! k = Some Dir).
    { intros k Hk. rewrite Hfs'.
      rewrite lookup_insert_ne by (intros <-; congruence).
      rewrite lookup_delete_ne by (intros <-; congruence). done. }
    assert (Hdest : fs w' !! (claim_dir self // name src) = fs w !! src).
    { rewrite joinpath_snoc by done. by rewrite Hfs', lookup_insert_eq. }
    split_and!; [done| |].
    + intros a Hane Hapar Had [x Hax].
      destruct (decide (a = claim_dir self)) as [|Hneq]; [done|]. exfalso.
      apply Hnot. exists a. split_and!; try done.
      * rewrite Hfs' in Had.
        rewrite lookup_insert_ne in Had.
        2:{ intros <-. by rewrite lookup_insert_eq in Had. }
        by apply lookup_delete_Some in Had as [_ ?].
      * rewrite joinpath_snoc in Hax |- * by done. rewrite Hfs' in Hax.
        rewrite lookup_insert_ne in Hax by (intros [? _]%app_inj_tail; done).
        apply lookup_delete_Some in Hax as [_ ?]. eauto.
    + intros other src' Hname. apply claim_refused; [by apply Hkeep|].
      rewrite Hname. exists (claim_dir self). split_and!; try done.
      * by apply Hkeep.
      * rewrite Hdest, Hsrc. eauto.
Qed.

End claims.

(** ** Stale claims *)



Section stale.
Import ClaimManager.


Variables (self : ClaimManager.t) (source_dir : path) (max_age_hours : Z).


(** *** Claim C6 *)


End stale.

(** ** The approval gate *)

Section gate.
Import Hitl.















(** *** Claim C4 *)


(** A content none of whose lines declares an action parses to
    ["unknown"], and no handler is registered under that name. *)
Lemma missing_action_is_unknown (c : string) :
  (∀ line, line ∈ PyStr.splitlines c →
           PyStr.startswith (PyStr.strip line) "action:" = false) →
  _extract_action_type c = "unknown" ∧ ACTION_HANDLERS !! _extract_action_type c = None.
Proof.
  intros Hlines. assert (Hx : _extract_action_type c = "unknown").
  { unfold _extract_action_type. induction (PyStr.splitlines c) as [|line l IH]; [done|].
    simpl. rewrite Hlines by by left. apply IH. intros l' Hl'. apply Hlines. by right. }
  split; [done|]. rewrite Hx. reflexivity.
Qed.

(** *** Claim C5 *)


(** *** Claim C9 *)


End gate.

(** ** The process supervisor *)

Section supervisor.
Import Orchestrator.

Lemma is_alive_pure (a : AgentProcess) (w : World) :
  ∃ b, is_alive a w = (Return b, w).
Proof. unfold is_alive, poll_is_none. destruct (process a); eauto. Qed.



(** [health_check] does nothing for a record that is not marked running,
    whatever its child does. *)
Lemma health_check_agent_not_running (a : AgentProcess) (w : World) :
  status a ≠ running → health_check_agent a w = (Return a, w).
Proof.
  intros H. unfold health_check_agent.
  destruct (bool_decide (status a ∈ [abandoned; missing; idle])); [done|].
  unfold bind. destruct (is_alive_pure a w) as [b ->].
  rewrite (bool_decide_eq_false_2 (status a = running)) by done.
  by rewrite andb_false_r.
Qed.

(** [health_check] on a record marked running whose child is gone marks
    it crashed and calls [restart]. *)
Lemma health_check_agent_crashed (a : AgentProcess) (w : World) :
  status a = running → dead a w →
  health_check_agent a w
  = (let (o, w') := restart (set_status crashed a) w in
     match o with Return r => (Return r.1, w') | Raise e => (Raise e, w') end).
Proof.
  intros Hs Hd. unfold health_check_agent. rewrite Hs. simpl.
  unfold bind at 1. rewrite Hd. simpl. unfold bind, ret.
  destruct (restart (set_status crashed a) w) as [[r|e] w']; done.
Qed.






Lemma same_env_refl (w : World) : same_env w w.
Proof. done. Qed.





Lemma for_update_cons {A} (x : A) (l : list A) (body : A → Py A) (w : World) :
  for_update (x :: l) body w
  = match body x w with
    | (Return x', w1) =>
        match for_update l body w1 with
        | (Return l', w2) => (Return (x' :: l'), w2)
        | (Raise e, w2) => (Raise e, w2)
        end
    | (Raise e, w1) => (Raise e, w1)
    end.
Proof.
  simpl. unfold bind, ret. destruct (body x w) as [[x'|e] w1]; [|done].
  by destruct (for_update l body w1) as [[l'|e] w2].
Qed.

Lemma spawn_count_app (cmd : Cmd) (w w' : World) (calls : list Cmd) :
  popen_calls w' = popen_calls w ++ calls →
  spawn_count cmd w'
  = spawn_count cmd w + length (List.filter (λ c, bool_decide (c = cmd)) calls).
Proof. intros H. unfold spawn_count. by rewrite H, List.filter_app, length_app. Qed.






(** *** Claim C3 *)


(** *** Claim C8 *)

(** C8, as the code has it.  [health_check] passes over the records in
    idle, missing or abandoned, and of the others it touches only those
    marked running: such a record, when its child is gone, is marked
    crashed and restarted.  A record in state failed is left as it is,
    with the world unchanged: no transition, no call of [restart], no
    spawn; so it stays failed through any number of passes. *)
Theorem failed_is_left_alone (a : AgentProcess) (w : World) :
  status a = failed →
  health_check_agent a w = (Return a, w) ∧
  (∀ k, health_checks k (Orchestrator.mk "standalone" [a] true) w
        = (Return (Orchestrator.mk "standalone" [a] true), w)) ∧
  (∀ b, status b = running → dead b w →
        health_check_agent b w
        = (let (o, w') := restart (set_status crashed b) w in
           match o with Return r => (Return r.1, w') | Raise e => (Raise e, w') end)).
Proof.
  intros Hst. assert (Hone : health_check_agent a w = (Return a, w)).
  { apply health_check_agent_not_running. by rewrite Hst. }
  split_and!; [done| |].
  - assert (Hpass : health_check (Orchestrator.mk "standalone" [a] true) w
                    = (Return (Orchestrator.mk "standalone" [a] true), w)).
    { unfold health_check. cbn [agents]. unfold bind at 1.
      rewrite for_update_cons, Hone. done. }
    induction k as [|k IH]; [done|]. cbn [health_checks]. unfold bind at 1.
    rewrite Hpass. apply IH.
  - intros b Hb Hd. by apply health_check_agent_crashed.
Qed.

End supervisor.
(** ** Failures of the claim protocol *)

Section failures.
Import ClaimManager.

(** *** Claim C7 *)


End failures.

(** ** The dry-run switch *)


(** *** Claim C10 *)


(** The values the switch reads as on are the three words in any mix of
    upper and lower case. *)
Example dry_run_values :
  DRY_RUN (<["DRY_RUN" := "TRUE"]> ∅) = true ∧
  DRY_RUN (<["DRY_RUN" := "Yes"]> ∅) = true ∧
  DRY_RUN (<["DRY_RUN" := "1"]> ∅) = true ∧
  DRY_RUN (<["DRY_RUN" := "false"]> ∅) = false ∧
  DRY_RUN (<["DRY_RUN" := "0"]> ∅) = false ∧
  DRY_RUN (<["DRY_RUN" := "on"]> ∅) = false ∧
  DRY_RUN (<["DRY_RUN" := ""]> ∅) = false ∧
  DRY_RUN (<["DRY_RUN" := " true"]> ∅) = false.
Proof. by vm_compute. Qed.

(** ** The theorems at concrete states *)

Section concrete.
Import Hitl.

Lemma wf_treeb_sound (t : tree) : wf_treeb t = true → wf_tree t.
Proof.
  unfold wf_treeb. intros [Hroot Hall]%andb_true_iff. split; [by apply is_dir_true|].
  intros p nd Hp. rewrite forallb_forall in Hall.
  specialize (Hall (p, nd)). simpl in Hall.
  apply andb_true_iff in Hall as [Hno Hpar].
  - split; [by apply bool_decide_eq_true in Hno|].
    intros Hne. apply orb_true_iff in Hpar as [Heq|Hd].
    + by apply bool_decide_eq_true in Heq.
    + by apply is_dir_true.
  - by apply list_elem_of_In, elem_of_map_to_list.
Qed.

Lemma forallb_entries (t : tree) (p : path * node → bool) (k : path) (nd : node) :
  forallb p (map_to_list t) = true → t !! k = Some nd → p (k, nd) = true.
Proof.
  intros Hall Hk. rewrite forallb_forall in Hall. apply Hall.
  by apply list_elem_of_In, elem_of_map_to_list.
Qed.




Lemma claim_mutual_exclusion_witness :
  wf_tree (fs claims_world) ∧
  ClaimManager.claim local (NEEDS_ACTION_DIR // "beta.md") claims_world
  = (Return None, claims_world) ∧
  let r := ClaimManager.claim local (NEEDS_ACTION_DIR // "gamma.md") claims_world in
  r.1 = Return (Some (IN_PROGRESS_DIR // "local_agent" // "gamma.md")) ∧
  fs r.2 !! (IN_PROGRESS_DIR // "local_agent" // "gamma.md")
  = Some (File "type: task" 30 true) ∧
  ClaimManager.claim cloud (NEEDS_ACTION_DIR // "gamma.md") r.2 = (Return None, r.2).
Proof.
  assert (Hwf : wf_tree (fs claims_world)) by (apply wf_treeb_sound; vm_compute; reflexivity).
  destruct (claim_mutual_exclusion local claims_world Hwf) as [Hheld Hdone].
  assert (Hproper : proper local) by (split; [discriminate|reflexivity]).
  assert (Hfile : is_file (fs claims_world) (NEEDS_ACTION_DIR // "gamma.md") = true)
    by (vm_compute; reflexivity).
  assert (Hclaim : ClaimManager.claim local (NEEDS_ACTION_DIR // "gamma.md") claims_world
                   = (Return (Some (IN_PROGRESS_DIR // "local_agent" // "gamma.md")),
                      (ClaimManager.claim local (NEEDS_ACTION_DIR // "gamma.md")
                                          claims_world).2))
    by (vm_compute; reflexivity).
  cbv zeta. split_and!.
  - exact Hwf.
  - apply Hheld. exists (IN_PROGRESS_DIR // "cloud_agent"). split_and!.
    + discriminate.
    + reflexivity.
    + vm_compute; reflexivity.
    + vm_compute. eexists. reflexivity.
  - vm_compute. reflexivity.
  - vm_compute. reflexivity.
  - exact (proj2 (proj2 (Hdone _ _ _ Hproper Hfile Hclaim))
                 cloud (NEEDS_ACTION_DIR // "gamma.md") eq_refl).
Defined.

(** *** Claim C2 *)

(** C2, at the failing input.  [release_to_done] of a task whose name Done
    already holds does not fail: it returns the path in Done, the task
    has left the scratch queue, and the entry that was in Done has been
    replaced by it, so that the tree has one entry less and the earlier
    task is lost. *)
Theorem release_replaces_same_name :
  let src := IN_PROGRESS_DIR // "cloud_agent" // "report.md" in
  let r := ClaimManager.release_to_done cloud src collision_world in
  fs collision_world !! (DONE_DIR // "report.md") = Some (File "first report" 100 true) ∧
  r.1 = Return (Some (DONE_DIR // "report.md")) ∧
  fs r.2 !! (DONE_DIR // "report.md") = Some (File "second report" 200 true) ∧
  fs r.2 !! src = None ∧
  size (fs r.2) + 1 = size (fs collision_world).
Proof. cbv zeta. split_and!; vm_compute; reflexivity. Qed.

(** The same for every release onto a regular file of the same name. *)
Lemma release_overwrites (self : ClaimManager.t) (f destination : path) (w : World)
    (c c0 : string) (m m0 : Q) (r r0 : bool) :
  fs w !! f = Some (File c m r) →
  fs w !! destination = Some Dir →
  name f ≠ "" →
  fs w !! (destination ++ [name f]) = Some (File c0 m0 r0) →
  f ≠ destination ++ [name f] →
  ∃ w', ClaimManager.release self f destination w
        = (Return (Some (destination ++ [name f])), w') ∧
        fs w' !! (destination ++ [name f]) = Some (File c m r) ∧
        fs w' !! f = None.
Proof.
  intros Hf Hd Hn Hold Hne. unfold ClaimManager.release, mkdir_p. py_unfold.
  unfold path_exists. rewrite Hf. simpl. rewrite Hd. simpl.
  rewrite joinpath_snoc by done.
  rewrite (shutil_move_file _ _ _ c m r); try done.
  - simpl. eexists. split; [done|]. simpl.
    rewrite lookup_insert_eq. split; [done|].
    by rewrite lookup_insert_ne, lookup_delete_eq.
  - apply is_dir_false. by rewrite Hold.
  - by rewrite parent_snoc.
Qed.

(** *** Witnesses and counterexamples of the other claims *)


Lemma failed_is_left_alone_witness :
  Orchestrator.health_check_agent failed_watcher supervisor_world
  = (Return failed_watcher, supervisor_world).
Proof. exact (proj1 (failed_is_left_alone failed_watcher supervisor_world eq_refl)). Defined.

(** C8 fails on the code: the failed record above, whose child is not
    alive, is not restarted, although [restart] would launch it. *)
Lemma failed_is_not_retried : ¬ failed_is_retried.
Proof.
  intros H.
  destruct (H failed_watcher supervisor_world eq_refl eq_refl) as (a' & ok & w' & Hr & Hh).
  assert (Hh' : Orchestrator.health_check_agent failed_watcher supervisor_world
                = (Return failed_watcher, supervisor_world)) by reflexivity.
  rewrite Hh' in Hh. injection Hh as <- <-.
  assert (Hcalls : popen_calls (Orchestrator.restart
                     (Orchestrator.set_status Orchestrator.crashed failed_watcher)
                     supervisor_world).2 ≠ popen_calls supervisor_world)
    by (vm_compute; discriminate).
  rewrite Hr in Hcalls. by apply Hcalls.
Qed.









End concrete.

(** * Further properties *)

(** ** Further properties of the claim protocol *)

Section claims_more.
Import ClaimManager.









End claims_more.


(** ** Further properties of the approval gate *)

Section gate_more.
Import Hitl.

















End gate_more.


(** ** The dry-run switch and the tree *)

Section tree_only.

Lemma with_fs_with_fs (t t' : tree) (w : World) : with_fs t (with_fs t' w) = with_fs t w.
Proof. done. Qed.

Lemma fs_only_ret {A} (a : A) : fs_only (ret a).
Proof. done. Qed.

Lemma fs_only_raise {A} (e : exn) : fs_only (raise e : Py A).
Proof. done. Qed.

Lemma fs_only_get_fs : fs_only get_fs.
Proof. done. Qed.

Lemma fs_only_put_fs (t : tree) : fs_only (put_fs t).
Proof. done. Qed.

Lemma fs_only_bind {A B} (m : Py A) (k : A → Py B) :
  fs_only m → (∀ a, fs_only (k a)) → fs_only (bind m k).
Proof.
  intros Hm Hk w0 w. unfold bind. rewrite Hm.
  destruct (m w) as [[a|e] w1]; simpl; [apply Hk|done].
Qed.

Lemma fs_only_try {A} (m : Py A) (handles : exn → bool) (h : exn → Py A) :
  fs_only m → (∀ e, fs_only (h e)) → fs_only (try_except m handles h).
Proof.
  intros Hm Hh w0 w. unfold try_except. rewrite Hm.
  destruct (m w) as [[a|e] w1]; simpl; [done|].
  destruct (handles e); [apply Hh|done].
Qed.

Ltac fs_only_step :=
  first
    [ apply fs_only_ret | apply fs_only_raise | apply fs_only_get_fs | apply fs_only_put_fs
    | apply fs_only_bind; [|intros ?]
    | apply fs_only_try; [|intros ?]
    | match goal with
      | |- fs_only (match ?x with _ => _ end) => destruct x
      | |- fs_only (if ?x then _ else _) => destruct x
      end ].








Lemma fs_only_iterdir (p : path) : fs_only (iterdir p).
Proof. unfold iterdir. repeat fs_only_step. Qed.

Lemma fs_only_read_text (p : path) : fs_only (read_text p).
Proof. unfold read_text. repeat fs_only_step. Qed.


End tree_only.

Section books.
Import Hitl.




End books.


(** ** Reading the action of a task *)

Section strings_more.
Import PyStr.

Lemma append_cons (c : ascii) (a b : string) :
  (String c a ++ b)%string = String c (a ++ b)%string.
Proof. done. Qed.

Lemma append_nil (b : string) : ("" ++ b)%string = b.
Proof. done. Qed.

Lemma lstrip_decomp (s : string) :
  ∃ ws, all_chars is_space ws = true ∧ s = (ws ++ lstrip s)%string.
Proof.
  induction s as [|c s (ws & Hws & IH)]; simpl.
  - by exists "".
  - destruct (is_space c) eqn:Hc.
    + exists (String c ws). simpl. rewrite Hc, Hws. split; [done|].
      rewrite append_cons. by f_equal.
    + by exists "".
Qed.

Lemma lstrip_spaces (ws s : string) :
  all_chars is_space ws = true → lstrip (ws ++ s)%string = lstrip s.
Proof.
  induction ws as [|c ws IH]; [done|]. rewrite append_cons. simpl.
  intros [Hc Hws]%andb_true_iff. rewrite Hc. by apply IH.
Qed.

Lemma prefix_rstrip (p x : string) :
  String.prefix p (rstrip x) = true → String.prefix p x = true.
Proof.
  revert p. induction x as [|c x IH]; intros p; simpl; [done|].
  destruct p as [|a p]; [done|].
  destruct (is_empty (rstrip x) && is_space c); simpl; [done|].
  destruct (ascii_dec a c); [apply IH|done].
Qed.

Lemma prefix_app (p x : string) :
  String.prefix p x = true → ∃ v, x = (p ++ v)%string.
Proof.
  revert x. induction p as [|a p IH]; intros x; simpl.
  - by exists x.
  - destruct x as [|c x]; simpl; [done|]. destruct (ascii_dec a c) as [->|]; [|done].
    intros (v & ->)%IH. exists v. by rewrite append_cons.
Qed.

Lemma partition_first (sep : ascii) (a b : string) :
  all_chars (λ c, negb (bool_decide (c = sep))) a = true →
  partition sep (a ++ String sep b)%string = Some (a, b).
Proof.
  induction a as [|c a IH]; [rewrite append_nil|rewrite append_cons]; simpl.
  - intros _. by rewrite bool_decide_eq_true_2.
  - intros [Hc Ha]%andb_true_iff. apply negb_true_iff in Hc. rewrite Hc.
    by rewrite IH.
Qed.

Lemma all_chars_impl (p q : ascii → bool) (s : string) :
  (∀ c, p c = true → q c = true) → all_chars p s = true → all_chars q s = true.
Proof.
  intros Hpq. induction s as [|c s IH]; simpl; [done|].
  intros [Hc Hs]%andb_true_iff. by rewrite (Hpq c Hc), IH.
Qed.

Lemma all_chars_app (p : ascii → bool) (a b : string) :
  all_chars p (a ++ b)%string = all_chars p a && all_chars p b.
Proof.
  induction a as [|c a IH]; [done|]. rewrite append_cons. simpl.
  by rewrite IH, andb_assoc.
Qed.

Lemma space_not_colon (c : ascii) :
  is_space c = true → negb (bool_decide (c = ":"%char)) = true.
Proof.
  intros Hc. apply negb_true_iff, bool_decide_eq_false. intros ->. by vm_compute in Hc.
Qed.

Lemma string_app_assoc (a b c : string) : ((a ++ b) ++ c = a ++ (b ++ c))%string.
Proof. induction a as [|x a IH]; [done|]. rewrite !append_cons. by rewrite IH. Qed.

End strings_more.

Section parse.
Import Hitl PyStr.

(** The line that decides: an action line is some white space, the
    word [action:], and the value. *)
Lemma action_line_shape (line : string) :
  startswith (strip line) "action:" = true →
  ∃ ws v, line = (ws ++ "action:" ++ v)%string ∧ all_chars is_space ws = true.
Proof.
  unfold startswith, strip. intros Hp%prefix_rstrip%prefix_app. destruct Hp as [v Hv].
  destruct (lstrip_decomp line) as (ws & Hws & Hl).
  exists ws, v. split; [|done]. by rewrite Hl at 1; rewrite Hv.
Qed.

Lemma action_line_value (ws v : string) :
  all_chars is_space ws = true →
  nth 1 (split_once ":"%char (ws ++ "action:" ++ v)%string) "" = v.
Proof.
  intros Hws. unfold split_once.
  change (ws ++ "action:" ++ v)%string with (ws ++ ("action" ++ String ":"%char v))%string.
  rewrite <- string_app_assoc. rewrite partition_first; [done|].
  rewrite all_chars_app. rewrite (all_chars_impl _ _ _ space_not_colon Hws). done.
Qed.

Lemma first_action_app (pre rest : list string) :
  (∀ l, l ∈ pre → startswith (strip l) "action:" = false) →
  first_action (pre ++ rest) = first_action rest.
Proof.
  induction pre as [|l pre IH]; intros Hpre; simpl; [done|].
  rewrite (Hpre l) by by left. apply IH. intros l' Hl'. apply Hpre. by right.
Qed.

(** X10. The first action line decides.  If the lines of a content are
    [pre], then [line], then [post], no line of [pre] starts with
    [action:] after stripping and [line] does, then [line] is white space
    followed by [action:] and a value, and [_extract_action_type] returns
    that value stripped, whatever [post] holds. *)
Theorem extract_action_type_takes_first_action_line
    (content line : string) (pre post : list string) :
  splitlines content = pre ++ line :: post →
  (∀ l, l ∈ pre → startswith (strip l) "action:" = false) →
  startswith (strip line) "action:" = true →
  ∃ ws v, line = (ws ++ "action:" ++ v)%string ∧ all_chars is_space ws = true ∧
          _extract_action_type content = strip v.
Proof.
  intros Hlines Hpre Hline.
  destruct (action_line_shape line Hline) as (ws & v & -> & Hws).
  exists ws, v. split_and!; try done.
  unfold _extract_action_type. rewrite Hlines, first_action_app by done.
  simpl. rewrite Hline. by rewrite action_line_value.
Qed.

End parse.


(** ** Further properties of the supervisor *)

Section supervisor_more.
Import Orchestrator.

Lemma is_alive_alive (a : AgentProcess) (w : World) :
  is_alive a w = (Return (alive a w), w).
Proof. unfold is_alive, alive, poll_is_none. by destruct (process a). Qed.

Lemma start_spec (a : AgentProcess) (w : World) :
  ∃ a' ok w',
    start a w = (Return (a', ok), w') ∧
    ok = bool_decide (status a' = running) ∧
    status a' = status_after_start w a ∧ cmd_of a' = cmd_of a ∧
    restarts a' = restarts a ∧
    fs w' = fs w ∧ can_spawn w' = can_spawn w ∧ still_running w' = still_running w ∧
    terminated w' = terminated w ∧
    popen_calls w' = popen_calls w ++ (if has_script (fs w) a then [cmd_of a] else []) ∧
    (next_pid w ≤ next_pid w')%nat ∧
    (status a' = running →
     ∃ p, process a' = Some p ∧ popen_args p = cmd_of a ∧
          (next_pid w ≤ pid p < next_pid w')%nat).
Proof.
  unfold start, popen, status_after_start, has_script, cmd_of. py_unfold.
  destruct (path_exists (fs w) (AGENTS_DIR // script a)); simpl.
  - destruct (can_spawn w _) eqn:Hc; simpl.
    + eexists _, _, _. split; [done|]. simpl. split_and!; try done; try lia.
      intros _. eexists. split_and!; try done; simpl; lia.
    + eexists _, _, _. split; [done|]. simpl. split_and!; try done.
  - eexists _, _, _. split; [done|]. simpl. rewrite app_nil_r. split_and!; try done.
Qed.

(** The loop of [start_all]. *)
Lemma start_loop (l : list AgentProcess) :
  ∀ w, ∃ l' w',
    for_update l (λ a, r <- start a ;; ret r.1) w = (Return l', w') ∧
    fs w' = fs w ∧ can_spawn w' = can_spawn w ∧ still_running w' = still_running w ∧
    terminated w' = terminated w ∧
    popen_calls w' = popen_calls w ++ map cmd_of (List.filter (has_script (fs w)) l) ∧
    (next_pid w ≤ next_pid w')%nat ∧
    Forall2 (λ a a', status a' = status_after_start w a ∧ cmd_of a' = cmd_of a ∧
                     restarts a' = restarts a) l l' ∧
    (∀ i a, l' !! i = Some a → status a = running →
            ∃ p, process a = Some p ∧ (next_pid w ≤ pid p < next_pid w')%nat) ∧
    (∀ i j a b p q, i ≠ j → l' !! i = Some a → l' !! j = Some b →
                    status a = running → status b = running →
                    process a = Some p → process b = Some q → pid p ≠ pid q).
Proof.
  induction l as [|a l IH]; intros w.
  { exists [], w. simpl. rewrite app_nil_r. split_and!; try done. }
  rewrite for_update_cons. unfold bind at 1.
  destruct (start_spec a w) as (a' & ok & w1 & -> & _ & Hst & Hcmd & Hre & Hfs1 & Hcs1 & Hsr1
                                & Hte1 & Hcalls1 & Hpid1 & Hrun1).
  unfold ret at 1. simpl.
  destruct (IH w1) as (l' & w' & -> & Hfs2 & Hcs2 & Hsr2 & Hte2 & Hcalls2 & Hpid2 & Hall2
                       & Hrange2 & Hdist2).
  exists (a' :: l'), w'. split; [done|]. split_and!; try congruence.
  - rewrite Hcalls2, Hcalls1, Hfs1. simpl.
    destruct (has_script (fs w) a); simpl; by rewrite <- app_assoc.
  - lia.
  - constructor; [done|]. eapply Forall2_impl; [exact Hall2|].
    intros b b' (? & ? & ?). unfold status_after_start in *.
    rewrite <- Hfs1, <- Hcs1. done.
  - intros [|i] b Hb Hs; simpl in Hb.
    + injection Hb as <-. destruct (Hrun1 Hs) as (p & Hp & _ & ?). exists p. split; [done|lia].
    + destruct (Hrange2 i b Hb Hs) as (p & Hp & ?). exists p. split; [done|lia].
  - assert (Hhead : ∀ j b p q, l' !! j = Some b → status a' = running → status b = running →
                               process a' = Some p → process b = Some q → pid p ≠ pid q).
    { intros j b p q Hb Hsa Hsb Hp Hq.
      destruct (Hrun1 Hsa) as (p' & Hp' & _ & ?).
      destruct (Hrange2 j b Hb Hsb) as (q' & Hq' & ?).
      assert (p' = p) by congruence. assert (q' = q) by congruence. subst. lia. }
    intros [|i] [|j] x y p q Hij Hx Hy Hsx Hsy Hp Hq; simpl in Hx, Hy; try done.
    + injection Hx as <-. by eapply Hhead.
    + injection Hy as <-. intros Heq. symmetry in Heq. revert Heq. by eapply Hhead.
    + eapply (Hdist2 i j); eauto.
Qed.


Lemma stop_kills (a : AgentProcess) (w : World) :
  ∃ w', stop a w = (Return (set_status stopped a), w') ∧
        fs w' = fs w ∧ can_spawn w' = can_spawn w ∧ still_running w' = still_running w ∧
        popen_calls w' = popen_calls w ∧ next_pid w' = next_pid w ∧ audit w' = audit w ∧
        alive a w' = false ∧ terminated w ⊆ terminated w' ∧
        (∀ n, n ∈ terminated w' →
              n ∈ terminated w ∨ ∃ p, process a = Some p ∧ pid p = n ∧ alive a w = true).
Proof.
  unfold stop. unfold bind at 1. rewrite is_alive_alive.
  unfold alive, terminate_and_wait. py_unfold.
  destruct (process a) as [p|]; simpl; [|eexists; split_and!; eauto].
  destruct (still_running w p && bool_decide (pid p ∉ terminated w)) eqn:Hal; simpl.
  - eexists. split; [done|]. simpl. split_and!; try done.
    + apply andb_false_iff. right. apply bool_decide_eq_false. set_solver.
    + set_solver.
    + intros n [->%elem_of_singleton|?]%elem_of_union; eauto.
  - eexists. split; [done|]. split_and!; eauto.
Qed.

Lemma dead_stays_dead (b : AgentProcess) (w w' : World) :
  still_running w' = still_running w → terminated w ⊆ terminated w' →
  alive b w = false → alive b w' = false.
Proof.
  unfold alive. intros -> Hsub. destruct (process b) as [p|]; [|done].
  intros [->|Hd]%andb_false_iff; [done|]. apply andb_false_iff. right.
  apply bool_decide_eq_false in Hd. apply bool_decide_eq_false. set_solver.
Qed.

(** The loop of [stop_all]. *)
Lemma stop_loop (l : list AgentProcess) :
  ∀ w, ∃ w',
    for_update l stop w = (Return (map (set_status stopped) l), w') ∧
    fs w' = fs w ∧ can_spawn w' = can_spawn w ∧ still_running w' = still_running w ∧
    popen_calls w' = popen_calls w ∧ audit w' = audit w ∧
    terminated w ⊆ terminated w' ∧
    (∀ a, a ∈ l → alive a w' = false) ∧
    (∀ n, n ∈ terminated w' →
          n ∈ terminated w ∨ ∃ a p, a ∈ l ∧ process a = Some p ∧ pid p = n).
Proof.
  induction l as [|a l IH]; intros w.
  { exists w. simpl. split_and!; try done.
    - intros a Ha. by apply elem_of_nil in Ha.
    - eauto. }
  rewrite for_update_cons.
  destruct (stop_kills a w) as (w1 & -> & Hfs1 & Hcs1 & Hsr1 & Hcalls1 & _ & Haud1 & Hdead1
                                & Hsub1 & Hown1).
  destruct (IH w1) as (w' & -> & Hfs2 & Hcs2 & Hsr2 & Hcalls2 & Haud2 & Hsub2 & Hdead2 & Hown2).
  exists w'. split; [done|]. split_and!; try congruence.
  - set_solver.
  - intros b [->|Hb]%elem_of_cons; [|by apply Hdead2].
    by apply (dead_stays_dead _ w1).
  - intros n Hn. destruct (Hown2 n Hn) as [Hn1|(b & p & Hb & Hp & Hpid)].
    + destruct (Hown1 n Hn1) as [?|(p & Hp & Hpid & _)]; [by left|].
      right. exists a, p. split_and!; try done. by left.
    + right. exists b, p. split_and!; try done. by right.
Qed.

Lemma health_check_stopped (l : list AgentProcess) (w : World) :
  (∀ a, a ∈ l → status a ≠ running ∨ alive a w = true) →
  for_update l health_check_agent w = (Return l, w).
Proof.
  induction l as [|a l IH]; intros Hl; [done|].
  rewrite for_update_cons.
  assert (Ha : health_check_agent a w = (Return a, w)).
  { destruct (Hl a) as [Hs|Hal]; [by left|by apply health_check_agent_not_running|].
    unfold health_check_agent. destruct (bool_decide _); [done|].
    unfold bind. rewrite is_alive_alive, Hal. done. }
  rewrite Ha, IH; [done|]. intros b Hb. apply Hl. by right.
Qed.

(** X12. [stop_all] stops every child and only its own.  It never raises,
    launches nothing and logs nothing; afterwards every record is
    [stopped] and no record has a live child; a process id it has
    terminated is that of a child of one of its records; and a health
    check that follows changes nothing. *)
Theorem stop_all_stops_every_child (self : Orchestrator.t) (w : World) :
  ∃ self' w',
    stop_all self w = (Return self', w') ∧
    agents self' = map (set_status stopped) (agents self) ∧
    fs w' = fs w ∧ popen_calls w' = popen_calls w ∧ audit w' = audit w ∧
    (∀ a, a ∈ agents self' → status a = stopped ∧ alive a w' = false) ∧
    (∀ n, n ∈ terminated w' →
          n ∈ terminated w ∨ ∃ a p, a ∈ agents self ∧ process a = Some p ∧ pid p = n) ∧
    health_check self' w' = (Return self', w').
Proof.
  destruct (stop_loop (agents self) w)
    as (w' & Hrun & Hfs & _ & _ & Hcalls & Haud & _ & Hdead & Hown).
  exists (set_agents (map (set_status stopped) (agents self)) self), w'.
  split_and!; try done.
  - unfold stop_all, bind. by rewrite Hrun.
  - simpl. intros a' (a & -> & Ha)%list_elem_of_fmap. split; [done|].
    change (alive a w' = false). by apply Hdead.
  - unfold health_check, bind. simpl. rewrite health_check_stopped; [done|].
    intros a' (a & -> & Ha)%list_elem_of_fmap. by left.
Qed.

Lemma set_agents_same (self : Orchestrator.t) : set_agents (agents self) self = self.
Proof. by destruct self. Qed.

Lemma health_check_agent_kills_nothing (a : AgentProcess) (w : World) :
  ∃ a' w', health_check_agent a w = (Return a', w') ∧
           terminated w' = terminated w ∧ still_running w' = still_running w ∧
           (status a ≠ running ∨ alive a w = true → a' = a ∧ w' = w).
Proof.
  destruct (decide (status a ≠ running ∨ alive a w = true)) as [Hk|Hk].
  { exists a, w. split_and!; try done.
    pose proof (health_check_stopped [a] w) as H. rewrite for_update_cons in H.
    destruct (health_check_agent a w) as [[a'|e] w1]; simpl in H.
    - assert ((Return [a'], w1) = (Return [a], w)) as [= -> ->]; [|done].
      apply H. intros b ->%list_elem_of_singleton. done.
    - assert ((Raise e, w1) = (Return [a], w)); [|done].
      apply H. intros b ->%list_elem_of_singleton. done. }
  assert (Hs : status a = running).
  { destruct (decide (status a = running)); [done|]. exfalso. apply Hk. by left. }
  assert (Hd : alive a w = false).
  { destruct (alive a w); [|done]. exfalso. apply Hk. by right. }
  assert (Hdead : dead a w) by (unfold dead; by rewrite is_alive_alive, Hd).
  rewrite (health_check_agent_crashed a w Hs Hdead).
  unfold restart. case_bool_decide.
  { simpl. eexists _, _. split_and!; done. }
  unfold bind at 1.
  destruct (stop_kills (set_status crashed a) w)
    as (w1 & -> & _ & _ & Hsr1 & _ & _ & _ & _ & Hsub1 & Hown1).
  match goal with |- context [start ?x w1] =>
    destruct (start_spec x w1) as (a' & ok & w' & -> & _ & _ & _ & _ & _ & _ & Hsr2 & Hte2 & _)
  end.
  exists a', w'. split_and!; try done; try congruence.
  - rewrite Hte2. apply set_eq. intros n. split; [|by apply Hsub1].
    intros Hn. destruct (Hown1 n Hn) as [?|(p & _ & _ & Hal)]; [done|].
    unfold alive in Hal, Hd. simpl in Hal. congruence.
Qed.

(** The loop of [health_check]: nothing is terminated, and a record is
    changed only if it is marked running while its child is gone. *)
Lemma health_check_loop (l : list AgentProcess) :
  ∀ w, ∃ l' w',
    for_update l health_check_agent w = (Return l', w') ∧
    terminated w' = terminated w ∧ still_running w' = still_running w ∧
    Forall2 (λ a a', (status a = running ∧ alive a w = false) ∨ a' = a) l l'.
Proof.
  induction l as [|a l IH]; intros w.
  { exists [], w. split_and!; try done. }
  rewrite for_update_cons.
  destruct (health_check_agent_kills_nothing a w) as (a' & w1 & -> & Hte1 & Hsr1 & Hkeep).
  destruct (IH w1) as (l' & w' & -> & Hte2 & Hsr2 & Hall).
  exists (a' :: l'), w'. split_and!; try congruence.
  constructor.
  - destruct (decide (status a = running)) as [Hs|Hs]; [|right; apply Hkeep; by left].
    destruct (alive a w) eqn:Hal; [right; apply Hkeep; by right|by left].
  - eapply Forall2_impl; [exact Hall|]. intros b b' [[? Hb]|?]; [left|by right].
    split; [done|]. unfold alive in *. by rewrite <- Hte1, <- Hsr1.
Qed.

(** X13. A health check restarts only the dead.  [health_check] never
    raises and terminates no process; a record comes out changed only if
    it was marked [running] while its child was gone; and when every
    record marked [running] has a live child, the pass returns the
    supervisor and the world exactly as they were. *)
Theorem health_check_restarts_only_the_dead (self : Orchestrator.t) (w : World) :
  ∃ self' w',
    health_check self w = (Return self', w') ∧
    terminated w' = terminated w ∧
    Forall2 (λ a a', (status a = running ∧ alive a w = false) ∨ a' = a)
            (agents self) (agents self') ∧
    ((∀ a, a ∈ agents self → status a = running → alive a w = true) →
     self' = self ∧ w' = w).
Proof.
  destruct (health_check_loop (agents self) w) as (l' & w' & Hrun & Hte & _ & Hall).
  exists (set_agents l' self), w'. split_and!; try done.
  - unfold health_check, bind. by rewrite Hrun.
  - intros Hlive. rewrite health_check_stopped in Hrun.
    + injection Hrun as <- <-. by rewrite set_agents_same.
    + intros a Ha. destruct (decide (status a = running)); [right|by left].
      by apply Hlive.
Qed.

End supervisor_more.


(** ** The layout of the vault *)

Section dirs.

Lemma file_on_the_way_spec (t : tree) (rest pre : path) :
  file_on_the_way t pre rest = true →
  ∃ p, p `prefix_of` (pre ++ rest) ∧ is_file t p = true.
Proof.
  revert pre. induction rest as [|c rest IH]; intros pre; simpl; [done|].
  intros [Hf|Hr]%orb_true_iff.
  - exists pre. split; [by apply prefix_app_r|done].
  - destruct (IH _ Hr) as (p & Hp & Hfile). exists p. split; [|done].
    by rewrite <- app_assoc in Hp.
Qed.

(** Creating the directories of a list one after the other. *)
Lemma mkdir_all (l : list path) :
  ∀ w, (∀ d, d ∈ l → d ≠ [] ∧ ∀ p, p `prefix_of` d → is_file (fs w) p = false) →
       ∃ w', for_each l mkdir_p w = (Return tt, w') ∧
             (∀ d, d ∈ l → fs w' !! d = Some Dir) ∧
             (∀ k nd, fs w !! k = Some nd → fs w' !! k = Some nd) ∧
             (∀ k, fs w !! k = None → fs w' !! k = None ∨ fs w' !! k = Some Dir) ∧
             w' = with_fs (fs w') w.
Proof.
  induction l as [|d l IH]; intros w Hl.
  { exists w. simpl. split_and!; try done.
    - intros d Hd. by apply elem_of_nil in Hd.
    - by left.
    - by rewrite with_fs_same. }
  destruct (Hl d) as [Hdne Hdfiles]; [by left|].
  simpl. unfold bind at 1.
  destruct (mkdir_p d w) as [res w1] eqn:Hmk.
  assert (Hok : res = Return tt ∧ w1 = with_fs (fs w1) w ∧
                ∀ k, fs w !! k = None → fs w1 !! k = None ∨ fs w1 !! k = Some Dir).
  { revert Hmk. unfold mkdir_p. py_unfold.
    destruct (fs w !! d) as [[]|] eqn:Hd.
    - specialize (Hdfiles d (reflexivity _)). unfold is_file in Hdfiles. by rewrite Hd in Hdfiles.
    - intros [= <- <-]. split_and!; try done; [by rewrite with_fs_same|]. by left.
    - destruct (file_on_the_way (fs w) [] d) eqn:Hway.
      + apply file_on_the_way_spec in Hway as (p & Hp & Hfile). simpl in Hp.
        by rewrite (Hdfiles p Hp) in Hfile.
      + intros [= <- <-]. split_and!; try done. simpl. intros k Hk.
        rewrite lookup_foldl_mkdir, Hk. destruct (decide _); eauto. }
  destruct Hok as (-> & Hw1 & Hnew1).
  pose proof (mkdir_p_creates _ _ _ Hdne Hmk) as Hd1.
  assert (Hkeep1 : ∀ k nd, fs w !! k = Some nd → fs w1 !! k = Some nd).
  { intros k nd. by apply (mkdir_p_keeps _ _ _ _ _ _ Hmk). }
  destruct (IH w1) as (w' & Hrun & Hdirs & Hkeep & Hnew & Hw').
  { intros d' Hd'. destruct (Hl d') as [? Hfiles]; [by right|]. split; [done|].
    intros p Hp. specialize (Hfiles p Hp). unfold is_file in *.
    destruct (fs w !! p) as [nd|] eqn:Hl0.
    - by rewrite (Hkeep1 _ _ Hl0).
    - destruct (Hnew1 p Hl0) as [Hx|Hx]; by rewrite Hx. }
  exists w'. split_and!.
  - done.
  - intros d' [->|Hd']%elem_of_cons; [by apply Hkeep|by apply Hdirs].
  - intros k nd Hk. by apply Hkeep, Hkeep1.
  - intros k Hk. destruct (Hnew1 k Hk) as [Hk1|Hk1]; [by apply Hnew|].
    right. by apply Hkeep.
  - rewrite Hw' at 1. by rewrite Hw1.
Qed.

Lemma mkdir_all_keeps (l : list path) :
  ∀ w res w' k nd, for_each l mkdir_p w = (res, w') →
                   fs w !! k = Some nd → fs w' !! k = Some nd.
Proof.
  induction l as [|d l IH]; intros w res w' k nd; simpl.
  - by intros [= _ <-].
  - unfold bind at 1. destruct (mkdir_p d w) as [[[]|e] w1] eqn:Hmk.
    + intros Hrun Hk. eapply IH; [exact Hrun|]. by eapply mkdir_p_keeps.
    + intros [= _ <-]. by eapply mkdir_p_keeps.
Qed.

Lemma mkdir_all_again (l : list path) (w : World) :
  (∀ d, d ∈ l → fs w !! d = Some Dir) → for_each l mkdir_p w = (Return tt, w).
Proof.
  induction l as [|d l IH]; intros Hl; simpl; [done|].
  unfold bind at 1. unfold mkdir_p at 1. py_unfold. rewrite (Hl d) by by left. simpl.
  apply IH. intros d' Hd'. apply Hl. by right.
Qed.

Lemma ALL_DIRS_not_root (d : path) : d ∈ ALL_DIRS → d ≠ [].
Proof.
  assert (H : forallb (λ d, negb (bool_decide (d = []))) ALL_DIRS = true) by done.
  intros Hd%list_elem_of_In. rewrite forallb_forall in H. specialize (H d Hd).
  apply negb_true_iff in H. by apply bool_decide_eq_false in H.
Qed.

(** X14. [ensure_dirs] builds the layout and destroys nothing.  Whether
    it returns or raises, every entry of the tree is kept as it was.
    When no path of the layout and none of its ancestors is a regular
    file, it returns; every directory of [ALL_DIRS] exists afterwards;
    what it added are directories only; nothing but the tree changes;
    and running it again changes nothing. *)
Theorem ensure_dirs_creates_the_layout :
  (∀ w res w' k nd, ensure_dirs w = (res, w') →
                    fs w !! k = Some nd → fs w' !! k = Some nd) ∧
  (∀ w, (∀ d p, d ∈ ALL_DIRS → p `prefix_of` d → is_file (fs w) p = false) →
        ∃ w', ensure_dirs w = (Return tt, w') ∧
              (∀ d, d ∈ ALL_DIRS → fs w' !! d = Some Dir) ∧
              (∀ k, fs w !! k = None → fs w' !! k = None ∨ fs w' !! k = Some Dir) ∧
              w' = with_fs (fs w') w ∧
              ensure_dirs w' = (Return tt, w')).
Proof.
  split.
  - intros w res w' k nd. apply mkdir_all_keeps.
  - intros w Hfree. destruct (mkdir_all ALL_DIRS w) as (w' & Hrun & Hdirs & _ & Hnew & Hw').
    { intros d Hd. split; [by apply ALL_DIRS_not_root|]. intros p. by apply Hfree. }
    exists w'. split_and!; try done. by apply mkdir_all_again.
Qed.





End dirs.


(** ** The [.env] file *)

Section dotenv.
Import PyStr Dotenv.

Lemma dotenv_line_extends (env env' : gmap string string) (line : string) :
  dotenv_line env line = Some env' → env ⊆ env'.
Proof.
  unfold dotenv_line.
  destruct (is_empty (strip line) || startswith (strip line) "#"); [by intros [= <-]|].
  destruct (partition "="%char (strip line)) as [[key value]|]; [|by intros [= <-]].
  destruct (is_empty (strip key)); simpl; [by intros [= <-]|].
  case_bool_decide as Hk; simpl; [by intros [= <-]|].
  destruct (nul_free _ && nul_free _); [|done]. intros [= <-].
  apply insert_subseteq. destruct (env !! strip key) eqn:Hl; [|done].
  exfalso. apply Hk. eauto.
Qed.

Lemma dotenv_lines_extend (lines : list string) (env : gmap string string) :
  env ⊆ (dotenv_lines env lines).1.
Proof.
  revert env. induction lines as [|l lines IH]; intros env; simpl; [done|].
  destruct (dotenv_line env l) as [env'|] eqn:Hl; [|done].
  etrans; [by eapply dotenv_line_extends|apply IH].
Qed.

(** X16. The [.env] file never overrides the process environment.
    Without a [.env] file [_load_dotenv] returns and changes nothing.
    However it ends, it changes nothing but the environment, every
    variable that was set keeps its value, and so a [DRY_RUN] or
    [AGENT_MODE] set in the process environment decides, whatever the
    file says. *)
Theorem load_dotenv_never_overrides (w : World) :
  (fs w !! (VAULT_ROOT // ".env") = None → _load_dotenv w = (Returned, w)) ∧
  (∀ res w', _load_dotenv w = (res, w') →
     w' = with_environ (environ w') w ∧
     environ w ⊆ environ w' ∧
     (∀ k v, environ w !! k = Some v → getenv (environ w') k "" = v) ∧
     (is_Some (environ w !! "DRY_RUN") → DRY_RUN (environ w') = DRY_RUN (environ w)) ∧
     (is_Some (environ w !! "AGENT_MODE") → AGENT_MODE (environ w') = AGENT_MODE (environ w))).
Proof.
  split.
  { intros Hnone. unfold _load_dotenv. unfold path_exists. by rewrite Hnone. }
  intros res w' Hrun.
  assert (Hw : w' = with_environ (environ w') w ∧ environ w ⊆ environ w').
  { revert Hrun. unfold _load_dotenv, read_text. py_unfold.
    destruct (path_exists (fs w) (VAULT_ROOT // ".env")); simpl.
    2:{ intros [= _ <-]. by destruct w. }
    destruct (fs w !! (VAULT_ROOT // ".env")) as [[c m [|]|]|]; simpl;
      try (intros [= _ <-]; by destruct w).
    pose proof (dotenv_lines_extend (splitlines c) (environ w)) as Hsub.
    destruct (dotenv_lines (environ w) (splitlines c)) as [env fin].
    intros [= _ <-]. done. }
  destruct Hw as [Hw Hsub]. split_and!; try done.
  - intros k v Hk. unfold getenv. by rewrite (lookup_weaken _ _ _ _ Hk Hsub).
  - intros [v Hv]. unfold DRY_RUN, getenv. by rewrite Hv, (lookup_weaken _ _ _ _ Hv Hsub).
  - intros [v Hv]. unfold AGENT_MODE, getenv. by rewrite Hv, (lookup_weaken _ _ _ _ Hv Hsub).
Qed.

End dotenv.


(** ** Lines of the [.env] file *)

Section strings_trim.
Import PyStr.

Lemma lstrip_length (s : string) : (String.length (lstrip s) ≤ String.length s)%nat.
Proof.
  induction s as [|c s IH]; simpl; [done|]. destruct (is_space c); simpl; lia.
Qed.

(** A string that is its own [lstrip] is empty or starts with a
    character that is no white space. *)
Lemma lstrip_fixed (c : ascii) (s : string) :
  lstrip (String c s) = String c s → is_space c = false.
Proof.
  simpl. destruct (is_space c); [|done]. intros Heq.
  pose proof (lstrip_length s) as Hlen. rewrite Heq in Hlen. simpl in Hlen. lia.
Qed.

Lemma lstrip_app_fixed (s b : string) :
  s ≠ "" → lstrip s = s → lstrip (s ++ b)%string = (s ++ b)%string.
Proof.
  destruct s as [|c s]; [done|]. intros _ Hc%lstrip_fixed.
  rewrite append_cons. simpl. by rewrite Hc.
Qed.

Lemma rstrip_all_space (b : string) : all_chars is_space b = true → rstrip b = "".
Proof.
  induction b as [|c b IH]; simpl; [done|].
  intros [Hc Hb]%andb_true_iff. by rewrite IH, Hc.
Qed.

Lemma rstrip_spaces (s b : string) :
  all_chars is_space b = true → rstrip (s ++ b)%string = rstrip s.
Proof.
  intros Hb. induction s as [|c s IH].
  - rewrite append_nil. by apply rstrip_all_space.
  - rewrite append_cons. simpl. by rewrite IH.
Qed.

Lemma rstrip_app (a r : string) :
  rstrip r ≠ "" → rstrip (a ++ r)%string = (a ++ rstrip r)%string.
Proof.
  intros Hr. induction a as [|c a IH]; [done|].
  rewrite !append_cons. simpl. rewrite IH.
  destruct (a ++ rstrip r)%string eqn:Heq; [|done].
  destruct a; [|done]. by rewrite append_nil in Heq.
Qed.

(** White space around a trimmed string is what [strip] removes. *)
Lemma strip_between (a s b : string) :
  all_chars is_space a = true → all_chars is_space b = true →
  lstrip s = s → rstrip s = s →
  strip (a ++ s ++ b)%string = s.
Proof.
  intros Ha Hb Hl Hr. unfold strip. rewrite lstrip_spaces by done.
  destruct s as [|c s].
  - rewrite append_nil. destruct (lstrip_decomp b) as (ws & Hws & Heq).
    assert (Hlb : all_chars is_space (lstrip b) = true).
    { rewrite Heq, all_chars_app in Hb. by apply andb_true_iff in Hb as [_ ?]. }
    by apply rstrip_all_space.
  - rewrite lstrip_app_fixed by done. by rewrite rstrip_spaces.
Qed.

Lemma all_chars_lstrip (s : string) :
  all_chars (λ c, negb (is_space c)) s = true → lstrip s = s.
Proof. destruct s as [|c s]; simpl; [done|]. by intros [->%negb_true_iff _]%andb_true_iff. Qed.

Lemma all_chars_rstrip (s : string) :
  all_chars (λ c, negb (is_space c)) s = true → rstrip s = s.
Proof.
  induction s as [|c s IH]; simpl; [done|].
  intros [->%negb_true_iff Hs]%andb_true_iff. by rewrite IH, andb_false_r.
Qed.

Lemma lstrip_cons (c : ascii) (s : string) :
  is_space c = false → lstrip (String c s) = String c s.
Proof. intros Hc. simpl. by rewrite Hc. Qed.

Lemma rstrip_cons (c : ascii) (r : string) :
  is_space c = false → rstrip (String c r) = String c (rstrip r).
Proof. intros Hc. simpl. by rewrite Hc, andb_false_r. Qed.

Lemma rstrip_snoc (s : string) (c : ascii) :
  is_space c = false → rstrip (s ++ String c "")%string = (s ++ String c "")%string.
Proof.
  intros Hc. rewrite rstrip_app; simpl; by rewrite Hc.
Qed.

End strings_trim.

Section dotenv_parse.
Import PyStr Dotenv.

Lemma endswith_app (a b : string) : endswith (a ++ b)%string b = true.
Proof.
  induction a as [|c a IH].
  - rewrite append_nil. destruct b; simpl; [done|]. by rewrite Ascii.eqb_refl, String.eqb_refl.
  - rewrite append_cons. simpl. rewrite IH. by rewrite orb_true_r.
Qed.

Lemma substring_app (a b : string) : String.substring 0 (String.length a) (a ++ b)%string = a.
Proof.
  induction a as [|c a IH]; simpl.
  - by destruct b.
  - rewrite ?append_cons. by rewrite IH.
Qed.

Lemma length_append (a b : string) :
  String.length (a ++ b)%string = (String.length a + String.length b)%nat.
Proof. induction a as [|c a IH]; [done|]. rewrite append_cons. simpl. by rewrite IH. Qed.

Lemma inner_quoted (v : string) : inner (dquote ++ v ++ dquote)%string = v.
Proof.
  unfold inner, dquote. rewrite append_cons, append_nil. simpl.
  rewrite length_append. simpl.
  replace (String.length v + 1 - 1)%nat with (String.length v) by lia.
  destruct (String.length v) eqn:Hlen.
  - destruct v; [done|done].
  - rewrite <- Hlen. apply substring_app.
Qed.

Lemma startswith_cons (a c : ascii) (p x : string) :
  startswith (String c x) (String a p)
  = if ascii_dec a c then startswith x p else false.
Proof. done. Qed.

Lemma startswith_nil (x : string) : startswith x "" = true.
Proof. by destruct x. Qed.

Lemma append_nil_r (a : string) : (a ++ "")%string = a.
Proof. induction a as [|c a IH]; [done|]. by rewrite append_cons, IH. Qed.

Lemma key_char_facts (k : string) :
  all_chars key_char k = true →
  all_chars (λ c, negb (is_space c)) k = true ∧
  all_chars (λ c, negb (bool_decide (c = "="%char))) k = true ∧
  nul_free k = true.
Proof.
  intros Hk. unfold nul_free. split_and!; (eapply all_chars_impl; [|exact Hk]);
    intros c Hc; unfold key_char in Hc;
    apply andb_true_iff in Hc as [[? ?]%andb_true_iff ?]; done.
Qed.

Lemma space_not_equals (c : ascii) :
  is_space c = true → negb (bool_decide (c = "="%char)) = true.
Proof.
  intros Hc. apply negb_true_iff, bool_decide_eq_false. intros ->. by vm_compute in Hc.
Qed.

(** One line [KEY = value], with any white space around its parts, for
    a value [val] that is trimmed: what the loop body does with it. *)
Lemma dotenv_line_sets (env : gmap string string) (ws1 ws2 ws3 ws4 k val : string) :
  all_chars is_space ws1 = true → all_chars is_space ws2 = true →
  all_chars is_space ws3 = true → all_chars is_space ws4 = true →
  plain_key k → env !! k = None →
  lstrip val = val → rstrip val = val →
  let fin := if startswith val dquote && endswith val dquote then inner val else val in
  nul_free fin = true →
  dotenv_line env (ws1 ++ k ++ ws2 ++ "=" ++ ws3 ++ val ++ ws4)%string
  = Some (<[k := fin]> env).
Proof.
  intros H1 H2 H3 H4 (Hkne & Hkc & Hkh) Hfree Hvl Hvr fin Hnul.
  destruct (key_char_facts k Hkc) as (Hksp & Hkeq & Hknul).
  pose proof (all_chars_lstrip k Hksp) as Hkl.
  pose proof (all_chars_rstrip k Hksp) as Hkr.
  set (rest := (ws3 ++ val ++ ws4)%string).
  (* the value part *)
  assert (Hrest : strip (rstrip rest) = val).
  { unfold rest. rewrite <- string_app_assoc, rstrip_spaces by done.
    destruct val as [|c val'] eqn:Hval.
    - rewrite append_nil_r, rstrip_all_space by done. done.
    - rewrite <- Hval in *. rewrite rstrip_app by (rewrite Hvr; by rewrite Hval).
      rewrite Hvr. rewrite <- (append_nil_r val) at 1.
      by apply strip_between. }
  (* the line after [strip] *)
  assert (Hline : strip (ws1 ++ k ++ ws2 ++ "=" ++ rest)%string
                  = ((k ++ ws2) ++ String "="%char (rstrip rest))%string).
  { unfold strip. rewrite lstrip_spaces by done.
    rewrite lstrip_app_fixed by done.
    rewrite <- string_app_assoc.
    change ("=" ++ rest)%string with (String "="%char rest).
    rewrite rstrip_app; by rewrite rstrip_cons. }
  unfold dotenv_line. fold rest. rewrite Hline.
  assert (Hfirst : ∃ c k', k = String c k') by (destruct k; [done|eauto]).
  destruct Hfirst as (c & k' & Hkk).
  assert (Hne : is_empty ((k ++ ws2) ++ String "="%char (rstrip rest))%string = false).
  { rewrite Hkk. by rewrite !append_cons. }
  assert (Hhash : startswith ((k ++ ws2) ++ String "="%char (rstrip rest))%string "#" = false).
  { rewrite Hkk in Hkh |- *. rewrite !append_cons. rewrite startswith_cons in *.
    rewrite startswith_nil in *. by destruct (ascii_dec "#" c). }
  rewrite Hne, Hhash. simpl.
  rewrite partition_first.
  2:{ rewrite all_chars_app, Hkeq. simpl.
      by apply (all_chars_impl _ _ _ space_not_equals). }
  rewrite Hrest.
  assert (Hkey : strip (k ++ ws2)%string = k).
  { rewrite <- (append_nil (k ++ ws2)%string). by apply strip_between. }
  rewrite Hkey, Hkk. simpl. rewrite <- Hkk.
  rewrite bool_decide_eq_false_2 by (rewrite Hfree; by intros [? ?]).
  simpl. fold fin. by rewrite Hknul, Hnul.
Qed.

(** X17. What a line of [.env] defines.  For a plain key that is not set
    yet, a line [KEY=value], with any white space around the key and
    around the value, sets the key to the value when the value is
    trimmed, free of NUL and not enclosed in double quotes; and a line
    with the value in double quotes sets the key to the text between
    them, white space included. *)
Theorem dotenv_line_defines (env : gmap string string) (ws1 ws2 ws3 ws4 k v : string) :
  all_chars is_space ws1 = true → all_chars is_space ws2 = true →
  all_chars is_space ws3 = true → all_chars is_space ws4 = true →
  plain_key k → env !! k = None → nul_free v = true →
  (lstrip v = v → rstrip v = v → startswith v dquote && endswith v dquote = false →
   dotenv_line env (ws1 ++ k ++ ws2 ++ "=" ++ ws3 ++ v ++ ws4)%string
   = Some (<[k := v]> env)) ∧
  dotenv_line env (ws1 ++ k ++ ws2 ++ "=" ++ ws3 ++ (dquote ++ v ++ dquote) ++ ws4)%string
  = Some (<[k := v]> env).
Proof.
  intros H1 H2 H3 H4 Hk Hfree Hnul. split.
  - intros Hl Hr Hq.
    rewrite (dotenv_line_sets env ws1 ws2 ws3 ws4 k v); try done; by rewrite Hq.
  - assert (Hq : is_space (ascii_of_N 34) = false) by done.
    rewrite (dotenv_line_sets env ws1 ws2 ws3 ws4 k (dquote ++ v ++ dquote)%string);
      try done.
    + assert (Hs : startswith (dquote ++ v ++ dquote)%string dquote = true).
      { unfold dquote. rewrite append_cons, startswith_cons, startswith_nil.
        by destruct (ascii_dec _ _). }
      rewrite Hs, <- string_app_assoc, endswith_app. simpl.
      by rewrite string_app_assoc, inner_quoted.
    + rewrite <- string_app_assoc. by apply rstrip_snoc.
    + assert (Hs : startswith (dquote ++ v ++ dquote)%string dquote = true).
      { unfold dquote. rewrite append_cons, startswith_cons, startswith_nil.
        by destruct (ascii_dec _ _). }
      rewrite Hs, <- string_app_assoc, endswith_app. simpl.
      by rewrite string_app_assoc, inner_quoted.
Qed.

End dotenv_parse.


(** ** The rosters *)

Section rosters.
Import Orchestrator Rosters.

(** X18. [main] supervises the roster of its mode.  The mode and the
    roster handed to the supervisor are one of the four pairs of the
    source; [--cloud] wins over [--local], which wins over [--minimal],
    and all of them over [AGENT_MODE]; without a flag the mode is [cloud]
    or [local] when [AGENT_MODE] says so, in any letter case, and
    [standalone] otherwise; in cloud mode no record is named
    [local_agent], [whatsapp_watcher] or [hitl_approval], in local mode
    none is named [cloud_agent]; and every record starts idle, with no
    child and no restart. *)
Theorem main_supervises_the_roster_of_its_mode (argv : list string)
    (env : gmap string string) :
  let o := main argv env in
  (mode o, agents o) ∈ [ ("cloud", AGENTS_CLOUD); ("local", AGENTS_LOCAL);
                         ("minimal", AGENTS_MINIMAL); ("standalone", AGENTS_STANDALONE) ] ∧
  ("--cloud" ∈ argv → mode o = "cloud") ∧
  ("--cloud" ∉ argv → "--local" ∈ argv → mode o = "local") ∧
  ("--cloud" ∉ argv → "--local" ∉ argv → "--minimal" ∈ argv → mode o = "minimal") ∧
  ("--cloud" ∉ argv → "--local" ∉ argv → "--minimal" ∉ argv →
   mode o = if is_cloud env then "cloud" else if is_local env then "local" else "standalone") ∧
  (mode o = "cloud" →
   ∀ n, n ∈ ["local_agent"; "whatsapp_watcher"; "hitl_approval"] → n ∉ roles (agents o)) ∧
  (mode o = "local" → "cloud_agent" ∉ roles (agents o)) ∧
  Forall (λ a, status a = idle ∧ restarts a = 0%Z ∧ process a = None) (agents o).
Proof.
  assert (Hfresh : ∀ l, l ∈ [AGENTS_CLOUD; AGENTS_LOCAL; AGENTS_MINIMAL; AGENTS_STANDALONE] →
            Forall (λ a, status a = idle ∧ restarts a = 0%Z ∧ process a = None) l).
  { intros l Hl. repeat (apply elem_of_cons in Hl as [->|Hl]);
      [| | | |by apply elem_of_nil in Hl]; repeat constructor. }
  assert (Hcloud : ∀ n, n ∈ ["local_agent"; "whatsapp_watcher"; "hitl_approval"] →
                        n ∉ roles AGENTS_CLOUD).
  { intros n Hn. repeat (apply elem_of_cons in Hn as [->|Hn]);
      [| | |by apply elem_of_nil in Hn];
      simpl; rewrite !not_elem_of_cons; split_and!; try done; apply not_elem_of_nil. }
  assert (Hlocal : "cloud_agent" ∉ roles AGENTS_LOCAL).
  { simpl. rewrite !not_elem_of_cons. split_and!; try done. apply not_elem_of_nil. }
  unfold main. cbv zeta.
  case_bool_decide as Hc; [|case_bool_decide as Hl; [|case_bool_decide as Hm]].
  - simpl. split_and!; try done; [set_solver|apply Hfresh; set_solver].
  - simpl. split_and!; try done; [set_solver|apply Hfresh; set_solver].
  - simpl. split_and!; try done; [set_solver|apply Hfresh; set_solver].
  - unfold is_cloud, is_local.
    destruct (String.eqb_spec (AGENT_MODE env) "cloud") as [Hmode|Hnc].
    { rewrite Hmode. simpl. split_and!; try done; [set_solver|apply Hfresh; set_solver]. }
    destruct (String.eqb_spec (AGENT_MODE env) "local") as [Hmode|Hnl].
    { rewrite Hmode. simpl. split_and!; try done; [set_solver|apply Hfresh; set_solver]. }
    rewrite bool_decide_eq_false_2 by set_solver.
    simpl. split_and!; try done; [set_solver|apply Hfresh; set_solver].
Qed.

End rosters.


(** ** The further theorems at concrete states *)

Section concrete_more.
Import Hitl.


Lemma no_filesb_sound (t : tree) (p : path) : no_filesb t = true → is_file t p = false.
Proof.
  intros Hall. unfold is_file. destruct (t !! p) as [[c m r|]|] eqn:Hp; try done.
  by pose proof (forallb_entries _ _ _ _ Hall Hp) as H.
Qed.











Lemma extract_action_type_takes_first_action_line_witness :
  _extract_action_type header_text = "deploy_checklist".
Proof.
  destruct (extract_action_type_takes_first_action_line
              header_text "  action: deploy_checklist  " ["---"]
              ["action: draft_email_reply"; "---"])
    as (ws & v & Hline & Hws & Hres).
  - vm_compute. reflexivity.
  - intros l ->%list_elem_of_singleton. vm_compute. reflexivity.
  - vm_compute. reflexivity.
  - vm_compute. reflexivity.
Defined.

Lemma ensure_dirs_creates_the_layout_witness :
  ∃ w', ensure_dirs empty_world = (Return tt, w') ∧
        fs w' !! (IN_PROGRESS_DIR // "cloud_agent") = Some Dir ∧
        fs w' !! (PENDING_APPROVAL_DIR // "email") = Some Dir ∧
        ensure_dirs w' = (Return tt, w').
Proof.
  destruct (proj2 ensure_dirs_creates_the_layout empty_world)
    as (w' & Hrun & Hdirs & _ & _ & Hagain).
  - intros d p _ _. apply no_filesb_sound. vm_compute. reflexivity.
  - exists w'. split_and!; try assumption.
    + apply Hdirs. apply (bool_decide_unpack _). vm_compute. exact I.
    + apply Hdirs. apply (bool_decide_unpack _). vm_compute. exact I.
Defined.


Lemma load_dotenv_never_overrides_witness :
  let r := Dotenv._load_dotenv env_world in
  r.1 = Dotenv.Returned ∧
  DRY_RUN (environ r.2) = true ∧
  environ r.2 !! "AGENT_MODE" = Some "cloud".
Proof.
  cbv zeta.
  assert (Heq : Dotenv._load_dotenv env_world
                = ((Dotenv._load_dotenv env_world).1, (Dotenv._load_dotenv env_world).2))
    by (destruct (Dotenv._load_dotenv env_world); reflexivity).
  destruct (proj2 (load_dotenv_never_overrides env_world) _ _ Heq)
    as (_ & _ & _ & Hdry & _).
  split_and!.
  - vm_compute. reflexivity.
  - rewrite Hdry; [vm_compute; reflexivity|]. eexists. vm_compute. reflexivity.
  - vm_compute. reflexivity.
Defined.

Lemma dotenv_line_defines_witness :
  Dotenv.dotenv_line ∅ "  DRY_RUN = false"
  = Some {[ "DRY_RUN" := "false" ]} ∧
  Dotenv.dotenv_line ∅ (String.append "GREETING=" (String.append Dotenv.dquote
                          (String.append "hello  world " Dotenv.dquote)))
  = Some {[ "GREETING" := "hello  world " ]}.
Proof.
  assert (Hsp : ∀ ws, ws = "" ∨ ws = " " ∨ ws = "  " →
                      all_chars PyStr.is_space ws = true).
  { intros ws [->|[->| ->]]; vm_compute; reflexivity. }
  assert (Hkey : ∀ k, k = "DRY_RUN" ∨ k = "GREETING" → plain_key k).
  { intros k [->| ->]; (split; [discriminate|split; vm_compute; reflexivity]). }
  assert (Hfree : ∀ k : string, (∅ : gmap string string) !! k = None)
    by (intros k; apply lookup_empty).
  split.
  - refine (proj1 (dotenv_line_defines ∅ "  " " " " " "" "DRY_RUN" "false"
                     _ _ _ _ _ _ _) _ _ _);
      try (apply Hsp; auto); try (apply Hkey; auto); try apply Hfree;
      vm_compute; reflexivity.
  - refine (proj2 (dotenv_line_defines ∅ "" "" "" "" "GREETING" "hello  world "
                     _ _ _ _ _ _ _));
      try (apply Hsp; auto); try (apply Hkey; auto); try apply Hfree;
      vm_compute; reflexivity.
Defined.

Lemma main_supervises_the_roster_of_its_mode_witness :
  Orchestrator.mode (Rosters.main ["orchestrator.py"; "--cloud"] {[ "AGENT_MODE" := "local" ]})
  = "cloud" ∧
  Orchestrator.mode (Rosters.main ["orchestrator.py"] {[ "AGENT_MODE" := "LOCAL" ]})
  = "local".
Proof.
  split.
  - apply (proj1 (proj2 (main_supervises_the_roster_of_its_mode
                           ["orchestrator.py"; "--cloud"] {[ "AGENT_MODE" := "local" ]}))).
    apply (bool_decide_unpack _). vm_compute. exact I.
  - etrans.
    + apply (proj1 (proj2 (proj2 (proj2 (proj2
               (main_supervises_the_roster_of_its_mode
                  ["orchestrator.py"] {[ "AGENT_MODE" := "LOCAL" ]}))))));
        apply (bool_decide_unpack _); vm_compute; exact I.
    + vm_compute. reflexivity.
Defined.


End concrete_more.


(** ** Name collisions in Done *)

Section collision.
Import Hitl.







End collision.


(** ** Sweeping twice *)

Section sweep_again.
Import ClaimManager.




End sweep_again.


(** ** Start-up *)

Section startup.
Import Orchestrator Rosters.

Lemma main_roster_cases (argv : list string) (env : gmap string string) :
  agents (main argv env) ∈ [AGENTS_CLOUD; AGENTS_LOCAL; AGENTS_MINIMAL; AGENTS_STANDALONE].
Proof.
  unfold main. cbv zeta.
  case_bool_decide; [simpl; set_solver|].
  case_bool_decide; [simpl; set_solver|].
  case_bool_decide; [simpl; set_solver|].
  destruct (decide (AGENT_MODE env = "cloud")) as [->|Hnc]; [simpl; set_solver|].
  destruct (decide (AGENT_MODE env = "local")) as [->|Hnl]; [simpl; set_solver|].
  rewrite bool_decide_eq_false_2 by set_solver. simpl. set_solver.
Qed.

Lemma roster_commands_distinct (argv : list string) (env : gmap string string) :
  NoDup (map cmd_of (agents (main argv env))).
Proof.
  pose proof (main_roster_cases argv env) as Hin.
  repeat (apply elem_of_cons in Hin as [->|Hin]); [| | | |by apply elem_of_nil in Hin];
    apply (bool_decide_unpack _); vm_compute; exact I.
Qed.

(** How often [cmd] occurs among the commands of the records of [l]
    that satisfy [p], when the commands of [l] are distinct. *)
Lemma count_in_filtered (p : AgentProcess → bool) (l : list AgentProcess) (a : AgentProcess) :
  NoDup (map cmd_of l) → a ∈ l →
  List.length (List.filter (λ c, bool_decide (c = cmd_of a)) (map cmd_of (List.filter p l)))
  = if p a then 1%nat else 0%nat.
Proof.
  induction l as [|b l IH]; intros Hnd Ha; [by apply elem_of_nil in Ha|].
  simpl in Hnd. apply NoDup_cons in Hnd as [Hb Hnd].
  assert (Hout : ∀ x, x ∈ l → cmd_of x ≠ cmd_of b).
  { intros x Hx Heq. apply Hb. rewrite <- Heq. apply list_elem_of_fmap. eauto. }
  assert (Hzero : List.length (List.filter (λ c, bool_decide (c = cmd_of b))
                                           (map cmd_of (List.filter p l))) = 0%nat).
  { clear IH Ha. induction l as [|x l IHl]; [done|]. simpl.
    apply NoDup_cons in Hnd as [_ Hnd].
    assert (Hb' : cmd_of b ∉ map cmd_of l).
    { intros Hin. apply Hb. simpl. by right. }
    assert (Hout' : ∀ y, y ∈ l → cmd_of y ≠ cmd_of b).
    { intros y Hy. apply Hout. by right. }
    specialize (IHl Hb' Hnd Hout').
    destruct (p x); simpl; [|done].
    rewrite bool_decide_eq_false_2; [done|]. apply Hout. by left. }
  apply elem_of_cons in Ha as [->|Ha].
  - simpl. destruct (p b); simpl; [|done].
    rewrite bool_decide_eq_true_2 by done. simpl. by rewrite Hzero.
  - specialize (IH Hnd Ha). simpl. destruct (p b); simpl; [|done].
    rewrite bool_decide_eq_false_2; [done|]. intros Heq. by apply (Hout a Ha).
Qed.

(** X21. Start-up launches every role once.  Whatever the arguments and
    the environment, the commands of the roster [main] builds are
    pairwise distinct; [start_all] returns on it, keeps the records'
    commands, and hands the command of every record whose script exists
    to [Popen] exactly once and that of every other record not at all;
    the records after start-up still have pairwise distinct commands. *)
Theorem start_up_launches_every_role_once (argv : list string) (env : gmap string string)
    (w : World) :
  let o := main argv env in
  NoDup (map cmd_of (agents o)) ∧
  ∃ o' w',
    start_all o w = (Return o', w') ∧
    map cmd_of (agents o') = map cmd_of (agents o) ∧
    (∀ a, a ∈ agents o →
          spawn_count (cmd_of a) w'
          = (spawn_count (cmd_of a) w + if has_script (fs w) a then 1 else 0)%nat) ∧
    (∀ i j a b, i ≠ j → agents o' !! i = Some a → agents o' !! j = Some b →
                cmd_of a ≠ cmd_of b).
Proof.
  cbv zeta. pose proof (roster_commands_distinct argv env) as Hnd. split; [done|].
  destruct (start_loop (agents (main argv env)) w)
    as (l' & w' & Hrun & _ & _ & _ & _ & Hcalls & _ & Hall & _).
  assert (Hcmds : map cmd_of l' = map cmd_of (agents (main argv env))).
  { clear Hrun Hcalls Hnd. induction Hall as [|a a' l l' (_ & Hc & _) _ IH]; [done|].
    simpl. by rewrite Hc, IH. }
  exists (set_agents l' (main argv env)), w'. split_and!.
  - unfold start_all. unfold bind at 1. by rewrite Hrun.
  - done.
  - intros a Ha. rewrite (spawn_count_app _ _ _ _ Hcalls). f_equal.
    by apply count_in_filtered.
  - simpl. intros i j a b Hij Ha Hb Heq. rewrite <- Hcmds in Hnd.
    apply (NoDup_lookup _ i j (cmd_of a)) in Hnd; [done| |].
    + by rewrite list_lookup_fmap, Ha.
    + by rewrite list_lookup_fmap, Hb, Heq.
Qed.

End startup.


(** ** The archive only grows *)

Section archive.
Import Hitl.





End archive.


(** ** Further scenarios *)

Section concrete_further.
Import Hitl.





End concrete_further.
